(** * LandRegistry: a shallow embedding of the property ledger contract
      (blockchain/contracts/LandRegistry.sol) and of the response
      interceptor of the frontend API client
      (frontend/src/services/apiService.ts).

    Every external function of the contract is a computation in a small
    reader/state/error monad over the contract storage: it reads
    [msg.sender] and [block.timestamp], threads the storage, collects the
    events and may revert.  A [Revert] carries no storage: the EVM
    discards all writes of a reverted call.  A history is a list of
    transactions, each one call from outside with the calls nested in it.

    The OpenZeppelin 4.9 base contracts the registry inherits from
    (ERC721, ERC721URIStorage, AccessControl, Pausable, Counters) are
    embedded as far as the registry's behaviour depends on them, and so
    are the external functions it inherits unchanged ([transferFrom],
    [safeTransferFrom], [approve], [setApprovalForAll], [grantRole],
    [revokeRole], [renounceRole]): they are part of the deployed
    contract, and the states it reaches depend on them.  The token name
    and symbol, never read by the registry, are left out.

    The recipient hook [onERC721Received], reached from [_safeMint] and
    [safeTransferFrom], is a call out of the contract to code the registry
    does not control.  No function of the registry is [nonReentrant]
    (ReentrancyGuard is inherited and never applied), so that code may
    call every external function of the registry before it answers.  A
    recipient is therefore modelled by the calls it makes into the
    registry, each with the recipient of its own, and by its answer. *)

From Stdlib Require Import ZArith Lia Bool.
From stdpp Require Import gmap strings list pretty.

Local Open Scope string_scope.
Local Open Scope list_scope.
Local Open Scope Z_scope.

(** ** Solidity value types *)

Abbreviation address := Z (only parsing).
Abbreviation uint256 := Z (only parsing).

Definition MAX_UINT256 : Z := 2 ^ 256 - 1.

(** [unchecked] arithmetic wraps around modulo [2^256]. *)
Definition wrap (x : Z) : uint256 := x mod 2 ^ 256.

Inductive PropertyType :=
  | RESIDENTIAL | COMMERCIAL | INDUSTRIAL | AGRICULTURAL | FOREST | OTHER.

Inductive PropertyStatus := ACTIVE | DISPUTED | FROZEN | TRANSFERRED.

Global Instance PropertyType_eq_dec : EqDecision PropertyType.
Proof. solve_decision. Defined.

Global Instance PropertyStatus_eq_dec : EqDecision PropertyStatus.
Proof. solve_decision. Defined.

Definition status_eqb (a b : PropertyStatus) : bool := bool_decide (a = b).

Record Property := mkProperty {
  id : uint256;
  location : string;
  coordinates : string;
  area : uint256;
  value : uint256;
  propertyType : PropertyType;
  status : PropertyStatus;
  registrationDate : uint256;
  lastTransferDate : uint256;
  documentHash : string;
  registrar : address;
  verified : bool
}.

(** The value every slot of [properties] holds before it is written. *)
Definition zero_property : Property :=
  mkProperty 0 "" "" 0 0 RESIDENTIAL ACTIVE 0 0 "" 0 false.

Definition with_value (v : uint256) (p : Property) : Property :=
  mkProperty (id p) (location p) (coordinates p) (area p) v (propertyType p)
    (status p) (registrationDate p) (lastTransferDate p) (documentHash p)
    (registrar p) (verified p).

Definition with_lastTransferDate (t : uint256) (p : Property) : Property :=
  mkProperty (id p) (location p) (coordinates p) (area p) (value p)
    (propertyType p) (status p) (registrationDate p) t (documentHash p)
    (registrar p) (verified p).

Definition with_status (st : PropertyStatus) (p : Property) : Property :=
  mkProperty (id p) (location p) (coordinates p) (area p) (value p)
    (propertyType p) st (registrationDate p) (lastTransferDate p)
    (documentHash p) (registrar p) (verified p).

Definition with_verified (b : bool) (p : Property) : Property :=
  mkProperty (id p) (location p) (coordinates p) (area p) (value p)
    (propertyType p) (status p) (registrationDate p) (lastTransferDate p)
    (documentHash p) (registrar p) b.

(** ** Roles

    The role identifiers are [bytes32] constants ([keccak256] of the role's
    name, and [0x00] for the default admin role).  Only these five are ever
    consulted by the contract, so they are kept as an enumeration. *)

Inductive Role :=
  | DEFAULT_ADMIN_ROLE | ADMIN_ROLE | NOTARY_ROLE | SURVEYOR_ROLE
  | TAX_AUTHORITY_ROLE.

Global Instance Role_eq_dec : EqDecision Role.
Proof. solve_decision. Defined.

Definition Role_to_nat (r : Role) : nat :=
  match r with
  | DEFAULT_ADMIN_ROLE => 0 | ADMIN_ROLE => 1 | NOTARY_ROLE => 2
  | SURVEYOR_ROLE => 3 | TAX_AUTHORITY_ROLE => 4
  end%nat.

Definition Role_of_nat (n : nat) : option Role :=
  match n with
  | 0 => Some DEFAULT_ADMIN_ROLE | 1 => Some ADMIN_ROLE
  | 2 => Some NOTARY_ROLE | 3 => Some SURVEYOR_ROLE
  | 4 => Some TAX_AUTHORITY_ROLE | _ => None
  end%nat.

Global Instance Role_countable : Countable Role.
Proof.
  apply (inj_countable Role_to_nat Role_of_nat).
  intros []; reflexivity.
Defined.

(** ** Events *)

Inductive event :=
  | PropertyRegistered (propertyId : uint256) (owner : address)
      (loc : string) (val : uint256) (reg : address)
  | PropertyTransferred (propertyId : uint256) (from to : address)
      (val : uint256)
  | PropertyVerified (propertyId : uint256) (surveyor : address) (v : bool)
  | PropertyStatusChanged (propertyId : uint256)
      (oldStatus newStatus : PropertyStatus)
  | PropertyValueUpdated (propertyId : uint256) (oldValue newValue : uint256)
      (updater : address)
  | Transfer (from to : address) (tokenId : uint256)
  | Approval (owner approved : address) (tokenId : uint256)
  | ApprovalForAll (owner operator : address) (approved : bool)
  | MetadataUpdate (tokenId : uint256)
  | RoleGranted (role : Role) (account sender : address)
  | RoleRevoked (role : Role) (account sender : address)
  | Paused (account : address)
  | Unpaused (account : address).

(** ** Contract storage *)

Record state := mkState {
  _owners : gmap Z Z;                      (* ERC721: tokenId => owner *)
  _balances : gmap Z Z;                    (* ERC721: owner => count *)
  _tokenApprovals : gmap Z Z;              (* ERC721: tokenId => approved *)
  _operatorApprovals : gset (Z * Z);       (* ERC721: (owner, operator) *)
  _tokenURIs : gmap Z string;              (* ERC721URIStorage *)
  _roles : gset (Role * Z);                (* AccessControl: members *)
  _paused : bool;                          (* Pausable *)
  _propertyIdCounter : uint256;            (* Counters.Counter *)
  properties : gmap Z Property;
  _locationToPropertyId : gmap string Z;
  _ownerProperties : gmap Z (list Z)
}.

Definition set_owners (f : gmap Z Z → gmap Z Z) (s : state) : state :=
  mkState (f (_owners s)) (_balances s) (_tokenApprovals s)
    (_operatorApprovals s) (_tokenURIs s) (_roles s) (_paused s)
    (_propertyIdCounter s) (properties s) (_locationToPropertyId s)
    (_ownerProperties s).

Definition set_balances (f : gmap Z Z → gmap Z Z) (s : state) : state :=
  mkState (_owners s) (f (_balances s)) (_tokenApprovals s)
    (_operatorApprovals s) (_tokenURIs s) (_roles s) (_paused s)
    (_propertyIdCounter s) (properties s) (_locationToPropertyId s)
    (_ownerProperties s).

Definition set_tokenApprovals (f : gmap Z Z → gmap Z Z) (s : state) : state :=
  mkState (_owners s) (_balances s) (f (_tokenApprovals s))
    (_operatorApprovals s) (_tokenURIs s) (_roles s) (_paused s)
    (_propertyIdCounter s) (properties s) (_locationToPropertyId s)
    (_ownerProperties s).

Definition set_operatorApprovals (f : gset (Z * Z) → gset (Z * Z))
    (s : state) : state :=
  mkState (_owners s) (_balances s) (_tokenApprovals s)
    (f (_operatorApprovals s)) (_tokenURIs s) (_roles s) (_paused s)
    (_propertyIdCounter s) (properties s) (_locationToPropertyId s)
    (_ownerProperties s).

Definition set_tokenURIs (f : gmap Z string → gmap Z string) (s : state)
    : state :=
  mkState (_owners s) (_balances s) (_tokenApprovals s)
    (_operatorApprovals s) (f (_tokenURIs s)) (_roles s) (_paused s)
    (_propertyIdCounter s) (properties s) (_locationToPropertyId s)
    (_ownerProperties s).

Definition set_roles (f : gset (Role * Z) → gset (Role * Z)) (s : state)
    : state :=
  mkState (_owners s) (_balances s) (_tokenApprovals s)
    (_operatorApprovals s) (_tokenURIs s) (f (_roles s)) (_paused s)
    (_propertyIdCounter s) (properties s) (_locationToPropertyId s)
    (_ownerProperties s).

Definition set_paused (b : bool) (s : state) : state :=
  mkState (_owners s) (_balances s) (_tokenApprovals s)
    (_operatorApprovals s) (_tokenURIs s) (_roles s) b
    (_propertyIdCounter s) (properties s) (_locationToPropertyId s)
    (_ownerProperties s).

Definition set_propertyIdCounter (f : uint256 → uint256) (s : state) : state :=
  mkState (_owners s) (_balances s) (_tokenApprovals s)
    (_operatorApprovals s) (_tokenURIs s) (_roles s) (_paused s)
    (f (_propertyIdCounter s)) (properties s) (_locationToPropertyId s)
    (_ownerProperties s).

Definition set_properties (f : gmap Z Property → gmap Z Property)
    (s : state) : state :=
  mkState (_owners s) (_balances s) (_tokenApprovals s)
    (_operatorApprovals s) (_tokenURIs s) (_roles s) (_paused s)
    (_propertyIdCounter s) (f (properties s)) (_locationToPropertyId s)
    (_ownerProperties s).

Definition set_locationToPropertyId (f : gmap string Z → gmap string Z)
    (s : state) : state :=
  mkState (_owners s) (_balances s) (_tokenApprovals s)
    (_operatorApprovals s) (_tokenURIs s) (_roles s) (_paused s)
    (_propertyIdCounter s) (properties s) (f (_locationToPropertyId s))
    (_ownerProperties s).

Definition set_ownerProperties (f : gmap Z (list Z) → gmap Z (list Z))
    (s : state) : state :=
  mkState (_owners s) (_balances s) (_tokenApprovals s)
    (_operatorApprovals s) (_tokenURIs s) (_roles s) (_paused s)
    (_propertyIdCounter s) (properties s) (_locationToPropertyId s)
    (f (_ownerProperties s)).

(** Reading a mapping slot that was never written yields the zero value. *)

Definition _ownerOf (s : state) (tokenId : uint256) : address :=
  default 0 (_owners s !! tokenId).

Definition _exists (s : state) (tokenId : uint256) : bool :=
  negb (_ownerOf s tokenId =? 0).

Definition balanceOf_raw (s : state) (a : address) : uint256 :=
  default 0 (_balances s !! a).

Definition getApproved_raw (s : state) (tokenId : uint256) : address :=
  default 0 (_tokenApprovals s !! tokenId).

Definition isApprovedForAll (s : state) (owner operator : address) : bool :=
  bool_decide ((owner, operator) ∈ _operatorApprovals s).

Definition hasRole (s : state) (role : Role) (account : address) : bool :=
  bool_decide ((role, account) ∈ _roles s).

Definition property_at (s : state) (propertyId : uint256) : Property :=
  default zero_property (properties s !! propertyId).

Definition locationToPropertyId (s : state) (loc : string) : uint256 :=
  default 0 (_locationToPropertyId s !! loc).

Definition ownerProperties (s : state) (owner : address) : list Z :=
  default [] (_ownerProperties s !! owner).

(** ** The transaction monad

    A call reads its context ([msg.sender], [block.timestamp] and what
    the call to the recipient's [onERC721Received] does), threads the
    storage, collects the emitted events and may revert. *)

Inductive result (A : Type) :=
  | Ok (a : A)
  | Revert (reason : string).

Arguments Ok {A} a.
Arguments Revert {A} reason.

Record env := mkEnv {
  msg_sender : address;
  block_timestamp : uint256;
  (* The external call [IERC721Receiver(to).onERC721Received(...)], run on
     the storage the registry has when it makes the call: the call either
     returns, with the storage and the events the recipient's own calls
     into the registry left and whether the value returned is the magic
     selector, or it reverts, and its writes are discarded.  For an
     account without code no call is made and the answer is [true]. *)
  onERC721Received : state → result (bool * state * list event)
}.

Definition M (A : Type) : Type :=
  env → state → result (A * state * list event).

Global Instance M_ret : MRet M :=
  λ A a, (λ _ s, Ok (a, s, [])) : M A.

Global Instance M_bind : MBind M :=
  λ A B (f : A → M B) (m : M A),
    (λ e s,
      match m e s with
      | Revert r => Revert r
      | Ok (a, s1, ev1) =>
          match f a e s1 with
          | Revert r => Revert r
          | Ok (b, s2, ev2) => Ok (b, s2, ev1 ++ ev2)
          end
      end) : M B.

Definition require (b : bool) (reason : string) : M unit :=
  λ _ s, if b then Ok (tt, s, []) else Revert reason.

Definition get : M state := λ _ s, Ok (s, s, []).

Definition modify (f : state → state) : M unit := λ _ s, Ok (tt, f s, []).

Definition emit (ev : event) : M unit := λ _ s, Ok (tt, s, [ev]).

Definition _msgSender : M address := λ e s, Ok (msg_sender e, s, []).

Definition timestamp : M uint256 := λ e s, Ok (block_timestamp e, s, []).

(** ERC721._checkOnERC721Received: the answer of the recipient; a revert
    of the recipient is passed on with its reason, and with the reason
    below when it has none. *)
Definition _checkOnERC721Received (to : address) : M bool :=
  λ e s,
    match onERC721Received e s with
    | Ok r => Ok r
    | Revert reason =>
        if String.eqb reason "" then
          Revert "ERC721: transfer to non ERC721Receiver implementer"
        else Revert reason
    end.

(** ** OpenZeppelin base contracts *)

(** Strings *)

Definition hex_digit (d : Z) : Ascii.ascii :=
  default Ascii.zero (String.get (Z.to_nat d) "0123456789abcdef").

Fixpoint hex_digits (n : nat) (value_ : Z) (buffer : string) : string :=
  match n with
  | O => buffer
  | S n' =>
      hex_digits n' (value_ / 16) (String (hex_digit (value_ mod 16)) buffer)
  end.

(** [Strings.toHexString(value, length)]: ["0x"] and [2 * length] digits,
    for a value that fits in [length] bytes. *)
Definition toHexString (value_ : Z) (length : nat) : string :=
  String.append "0x" (hex_digits (2 * length) value_ "").

(** AccessControl *)

(** The [bytes32] identifier of a role: [keccak256] of its name (lines
    20-23), and zero for the default admin role. *)
Definition role_id (role : Role) : Z :=
  match role with
  | DEFAULT_ADMIN_ROLE => 0
  | ADMIN_ROLE =>
      0xa49807205ce4d355092ef5a8a18f56e8913cf4a201fbe287825b095693c21775
  | NOTARY_ROLE =>
      0x014df5ee2861d7f34562399ffa112fc59b51f810d2b875c3609ba0c31ac873d0
  | SURVEYOR_ROLE =>
      0x2876b6444ca73956040d49b0d48b2a7c03b6b34daa638a812177f0309da79c7e
  | TAX_AUTHORITY_ROLE =>
      0xbd855bb9e3d146daf95b7a605c5b0a49001f3e32a32aab6c88de941c0ef229b7
  end.

Definition missing_role (account : address) (role : Role) : string :=
  String.append "AccessControl: account "
    (String.append (toHexString account 20)
       (String.append " is missing role " (toHexString (role_id role) 32))).

Arguments missing_role : simpl never.

Definition _checkRole (role : Role) : M unit :=
  sender ← _msgSender;
  s ← get;
  require (hasRole s role sender) (missing_role sender role).

Definition onlyRole (role : Role) : M unit := _checkRole role.

(** [_setRoleAdmin] is never called: every role is administered by the
    default admin role. *)
Definition getRoleAdmin (role : Role) : Role := DEFAULT_ADMIN_ROLE.

Definition _grantRole (role : Role) (account : address) : M unit :=
  s ← get;
  if hasRole s role account then mret tt
  else
    modify (set_roles (λ r, {[ (role, account) ]} ∪ r)) ;;
    sender ← _msgSender;
    emit (RoleGranted role account sender).

Definition _revokeRole (role : Role) (account : address) : M unit :=
  s ← get;
  if hasRole s role account then
    modify (set_roles (λ r, r ∖ {[ (role, account) ]})) ;;
    sender ← _msgSender;
    emit (RoleRevoked role account sender)
  else mret tt.

Definition grantRole (role : Role) (account : address) : M unit :=
  onlyRole (getRoleAdmin role) ;;
  _grantRole role account.

Definition revokeRole (role : Role) (account : address) : M unit :=
  onlyRole (getRoleAdmin role) ;;
  _revokeRole role account.

Definition renounceRole (role : Role) (account : address) : M unit :=
  sender ← _msgSender;
  require (account =? sender)
    "AccessControl: can only renounce roles for self" ;;
  _revokeRole role account.

(** Pausable *)

Definition whenNotPaused : M unit :=
  s ← get; require (negb (_paused s)) "Pausable: paused".

Definition whenPaused : M unit :=
  s ← get; require (_paused s) "Pausable: not paused".

Definition _pause : M unit :=
  whenNotPaused ;;
  modify (set_paused true) ;;
  sender ← _msgSender;
  emit (Paused sender).

Definition _unpause : M unit :=
  whenPaused ;;
  modify (set_paused false) ;;
  sender ← _msgSender;
  emit (Unpaused sender).

(** Counters *)

Definition Counters_increment : M unit :=
  modify (set_propertyIdCounter (λ v, wrap (v + 1))).

Definition Counters_current : M uint256 :=
  s ← get; mret (_propertyIdCounter s).

(** ERC721 *)

Definition ownerOf (tokenId : uint256) : M address :=
  s ← get;
  let owner := _ownerOf s tokenId in
  require (negb (owner =? 0)) "ERC721: invalid token ID" ;;
  mret owner.

(** LandRegistry.sol, lines 317-324: the registry's override of the
    transfer hook; the inherited body is empty. *)
Definition _beforeTokenTransfer (from to : address) (tokenId batchSize : uint256)
    : M unit :=
  whenNotPaused.

Definition _mint (to : address) (tokenId : uint256) : M unit :=
  require (negb (to =? 0)) "ERC721: mint to the zero address" ;;
  s ← get;
  require (negb (_exists s tokenId)) "ERC721: token already minted" ;;
  _beforeTokenTransfer 0 to tokenId 1 ;;
  s ← get;
  require (negb (_exists s tokenId)) "ERC721: token already minted" ;;
  modify (λ s, set_balances <[to := wrap (balanceOf_raw s to + 1)]> s) ;;
  modify (set_owners <[tokenId := to]>) ;;
  emit (Transfer 0 to tokenId).

Definition _safeMint (to : address) (tokenId : uint256) : M unit :=
  _mint to tokenId ;;
  ok ← _checkOnERC721Received to;
  require ok "ERC721: transfer to non ERC721Receiver implementer".

Definition _transfer (from to : address) (tokenId : uint256) : M unit :=
  owner ← ownerOf tokenId;
  require (owner =? from) "ERC721: transfer from incorrect owner" ;;
  require (negb (to =? 0)) "ERC721: transfer to the zero address" ;;
  _beforeTokenTransfer from to tokenId 1 ;;
  owner ← ownerOf tokenId;
  require (owner =? from) "ERC721: transfer from incorrect owner" ;;
  modify (set_tokenApprovals (delete tokenId)) ;;
  modify (λ s, set_balances <[from := wrap (balanceOf_raw s from - 1)]> s) ;;
  modify (λ s, set_balances <[to := wrap (balanceOf_raw s to + 1)]> s) ;;
  modify (set_owners <[tokenId := to]>) ;;
  emit (Transfer from to tokenId).

Definition _isApprovedOrOwner (spender : address) (tokenId : uint256)
    : M bool :=
  owner ← ownerOf tokenId;
  s ← get;
  mret ((spender =? owner) || isApprovedForAll s owner spender
        || (getApproved_raw s tokenId =? spender)).

Definition approve (to : address) (tokenId : uint256) : M unit :=
  owner ← ownerOf tokenId;
  require (negb (to =? owner)) "ERC721: approval to current owner" ;;
  sender ← _msgSender;
  s ← get;
  require ((sender =? owner) || isApprovedForAll s owner sender)
    "ERC721: approve caller is not token owner or approved for all" ;;
  modify (set_tokenApprovals <[tokenId := to]>) ;;
  emit (Approval owner to tokenId).

Definition setApprovalForAll (operator : address) (approved : bool)
    : M unit :=
  owner ← _msgSender;
  require (negb (owner =? operator)) "ERC721: approve to caller" ;;
  modify (set_operatorApprovals
            (λ o, if approved then {[ (owner, operator) ]} ∪ o
                  else o ∖ {[ (owner, operator) ]})) ;;
  emit (ApprovalForAll owner operator approved).

Definition transferFrom (from to : address) (tokenId : uint256) : M unit :=
  sender ← _msgSender;
  ok ← _isApprovedOrOwner sender tokenId;
  require ok "ERC721: caller is not token owner or approved" ;;
  _transfer from to tokenId.

Definition safeTransferFrom (from to : address) (tokenId : uint256)
    : M unit :=
  sender ← _msgSender;
  ok ← _isApprovedOrOwner sender tokenId;
  require ok "ERC721: caller is not token owner or approved" ;;
  _transfer from to tokenId ;;
  ok ← _checkOnERC721Received to;
  require ok "ERC721: transfer to non ERC721Receiver implementer".

(** ERC721URIStorage *)

Definition _setTokenURI (tokenId : uint256) (uri : string) : M unit :=
  s ← get;
  require (_exists s tokenId)
    "ERC721URIStorage: URI set of nonexistent token" ;;
  modify (set_tokenURIs <[tokenId := uri]>) ;;
  emit (MetadataUpdate tokenId).

(** ** LandRegistry *)

(** Lines 102-108. *)
Definition constructor : M unit :=
  sender ← _msgSender;
  _grantRole DEFAULT_ADMIN_ROLE sender ;;
  _grantRole ADMIN_ROLE sender.

(** Lines 121-165. *)
Definition registerProperty (owner : address) (loc coords : string)
    (area_ value_ : uint256) (ptype : PropertyType)
    (docHash tokenURI : string) : M uint256 :=
  onlyRole NOTARY_ROLE ;;
  whenNotPaused ;;
  require (negb (owner =? 0)) "Invalid owner address" ;;
  require (0 <? Z.of_nat (String.length loc)) "Location cannot be empty" ;;
  require (0 <? area_) "Area must be greater than 0" ;;
  s ← get;
  require (locationToPropertyId s loc =? 0)
    "Property already exists at this location" ;;
  Counters_increment ;;
  propertyId ← Counters_current;
  _safeMint owner propertyId ;;
  _setTokenURI propertyId tokenURI ;;
  now ← timestamp;
  sender ← _msgSender;
  modify (set_properties
            <[propertyId :=
                mkProperty propertyId loc coords area_ value_ ptype ACTIVE
                  now now docHash sender false]>) ;;
  modify (set_locationToPropertyId <[loc := propertyId]>) ;;
  modify (λ s, set_ownerProperties
                 <[owner := ownerProperties s owner ++ [propertyId]]> s) ;;
  emit (PropertyRegistered propertyId owner loc value_ sender) ;;
  mret propertyId.

(** Lines 305-314: the loop scans [ownerProps] from index [0]; [rest] is
    the part of the array from index [i] on.  At the first match the last
    element is copied into slot [i] and the array is popped. *)
Fixpoint _removeLoop (rest : list Z) (i : nat) (ownerProps : list Z)
    (propertyId : uint256) : list Z :=
  match rest with
  | [] => ownerProps
  | x :: rest' =>
      if x =? propertyId then
        removelast (<[i := List.last ownerProps 0]> ownerProps)
      else _removeLoop rest' (S i) ownerProps propertyId
  end.

Definition _removePropertyFromOwner (owner : address) (propertyId : uint256)
    : M unit :=
  modify (λ s,
    let ownerProps := ownerProperties s owner in
    set_ownerProperties
      <[owner := _removeLoop ownerProps 0 ownerProps propertyId]> s).

(** Lines 178-192: the checks, the update of the attribute struct and of
    the per-owner lists; the property is left in status TRANSFERRED. *)
Definition transferProperty_prepare (propertyId : uint256)
    (newOwner : address) (newValue : uint256) : M address :=
  s ← get;
  require (_exists s propertyId) "Property does not exist" ;;
  require (negb (newOwner =? 0)) "Invalid new owner address" ;;
  require (status_eqb (status (property_at s propertyId)) ACTIVE)
    "Property is not transferable" ;;
  currentOwner ← ownerOf propertyId;
  require (negb (currentOwner =? newOwner))
    "Cannot transfer to same owner" ;;
  modify (λ s, set_properties
                 <[propertyId := with_value newValue
                                   (property_at s propertyId)]> s) ;;
  now ← timestamp;
  modify (λ s, set_properties
                 <[propertyId := with_lastTransferDate now
                                   (property_at s propertyId)]> s) ;;
  modify (λ s, set_properties
                 <[propertyId := with_status TRANSFERRED
                                   (property_at s propertyId)]> s) ;;
  _removePropertyFromOwner currentOwner propertyId ;;
  modify (λ s, set_ownerProperties
                 <[newOwner := ownerProperties s newOwner ++ [propertyId]]>
                 s) ;;
  mret currentOwner.

(** Lines 173-201. *)
Definition transferProperty (propertyId : uint256) (newOwner : address)
    (newValue : uint256) : M unit :=
  onlyRole NOTARY_ROLE ;;
  whenNotPaused ;;
  currentOwner ← transferProperty_prepare propertyId newOwner newValue;
  _transfer currentOwner newOwner propertyId ;;
  modify (λ s, set_properties
                 <[propertyId := with_status ACTIVE
                                   (property_at s propertyId)]> s) ;;
  emit (PropertyTransferred propertyId currentOwner newOwner newValue).

(** Lines 208-217. *)
Definition verifyProperty (propertyId : uint256) (isVerified : bool)
    : M unit :=
  onlyRole SURVEYOR_ROLE ;;
  whenNotPaused ;;
  s ← get;
  require (_exists s propertyId) "Property does not exist" ;;
  modify (λ s, set_properties
                 <[propertyId := with_verified isVerified
                                   (property_at s propertyId)]> s) ;;
  sender ← _msgSender;
  emit (PropertyVerified propertyId sender isVerified).

(** Lines 224-234. *)
Definition changePropertyStatus (propertyId : uint256)
    (newStatus : PropertyStatus) : M unit :=
  onlyRole ADMIN_ROLE ;;
  whenNotPaused ;;
  s ← get;
  require (_exists s propertyId) "Property does not exist" ;;
  let oldStatus := status (property_at s propertyId) in
  modify (λ s, set_properties
                 <[propertyId := with_status newStatus
                                   (property_at s propertyId)]> s) ;;
  emit (PropertyStatusChanged propertyId oldStatus newStatus).

(** Lines 241-252. *)
Definition updatePropertyValue (propertyId newValue : uint256) : M unit :=
  onlyRole TAX_AUTHORITY_ROLE ;;
  whenNotPaused ;;
  s ← get;
  require (_exists s propertyId) "Property does not exist" ;;
  require (0 <? newValue) "Value must be greater than 0" ;;
  let oldValue := value (property_at s propertyId) in
  modify (λ s, set_properties
                 <[propertyId := with_value newValue
                                   (property_at s propertyId)]> s) ;;
  sender ← _msgSender;
  emit (PropertyValueUpdated propertyId oldValue newValue sender).

(** Lines 289-298. *)
Definition pause : M unit := onlyRole ADMIN_ROLE ;; _pause.

Definition unpause : M unit := onlyRole ADMIN_ROLE ;; _unpause.

(** View functions, lines 258-284. *)

Definition getProperty (s : state) (propertyId : uint256) : result Property :=
  if _exists s propertyId then Ok (property_at s propertyId)
  else Revert "Property does not exist".

Definition getPropertyIdByLocation (s : state) (loc : string) : uint256 :=
  locationToPropertyId s loc.

Definition getPropertiesByOwner (s : state) (owner : address) : list Z :=
  ownerProperties s owner.

Definition getTotalProperties (s : state) : uint256 := _propertyIdCounter s.

(** [ownerOf] as a view. *)
Definition ownerOf_view (s : state) (tokenId : uint256) : result address :=
  if _exists s tokenId then Ok (_ownerOf s tokenId)
  else Revert "ERC721: invalid token ID".

(** ** Calls *)

Inductive call :=
  | RegisterProperty (owner : address) (loc coords : string)
      (area_ value_ : uint256) (ptype : PropertyType)
      (docHash tokenURI : string)
  | TransferProperty (propertyId : uint256) (newOwner : address)
      (newValue : uint256)
  | VerifyProperty (propertyId : uint256) (isVerified : bool)
  | ChangePropertyStatus (propertyId : uint256) (newStatus : PropertyStatus)
  | UpdatePropertyValue (propertyId newValue : uint256)
  | Pause
  | Unpause
  | GrantRole (role : Role) (account : address)
  | RevokeRole (role : Role) (account : address)
  | RenounceRole (role : Role) (account : address)
  | Approve (to : address) (tokenId : uint256)
  | SetApprovalForAll (operator : address) (approved : bool)
  | TransferFrom (from to : address) (tokenId : uint256)
  | SafeTransferFrom (from to : address) (tokenId : uint256).

Definition exec (c : call) : M unit :=
  match c with
  | RegisterProperty owner loc coords area_ value_ ptype docHash tokenURI =>
      registerProperty owner loc coords area_ value_ ptype docHash tokenURI ;;
      mret tt
  | TransferProperty propertyId newOwner newValue =>
      transferProperty propertyId newOwner newValue
  | VerifyProperty propertyId isVerified =>
      verifyProperty propertyId isVerified
  | ChangePropertyStatus propertyId newStatus =>
      changePropertyStatus propertyId newStatus
  | UpdatePropertyValue propertyId newValue =>
      updatePropertyValue propertyId newValue
  | Pause => pause
  | Unpause => unpause
  | GrantRole role account => grantRole role account
  | RevokeRole role account => revokeRole role account
  | RenounceRole role account => renounceRole role account
  | Approve to tokenId => approve to tokenId
  | SetApprovalForAll operator approved => setApprovalForAll operator approved
  | TransferFrom from to tokenId => transferFrom from to tokenId
  | SafeTransferFrom from to tokenId => safeTransferFrom from to tokenId
  end.

(** The calls that reach no recipient hook. *)
Definition hookless (c : call) : bool :=
  match c with
  | RegisterProperty _ _ _ _ _ _ _ _ | SafeTransferFrom _ _ _ => false
  | _ => true
  end.

(** ** Recipients

    What the code behind [onERC721Received] does, as far as the registry
    can tell: a sequence of calls into the registry, made by the recipient
    or by contracts it calls (so under any sender), each reaching a
    recipient of its own, and then the answer: the value returned (the
    magic selector or not) or a revert.  A nested call that reverts is
    caught by its caller and leaves no trace; a recipient that lets the
    revert through is one that reverts. *)

Inductive verdict :=
  | Returns (magic : bool)
  | Reverts (reason : string).

Inductive behaviour :=
  | Behaviour (calls : list callback) (outcome : verdict)
with callback :=
  | Callback (sender : address) (c : call) (recipient : behaviour).

(** An account without code, and a contract that takes the token and
    makes no call. *)
Definition account : behaviour := Behaviour [] (Returns true).

Definition answer (outcome : verdict) (s : state)
    : result (bool * state * list event) :=
  match outcome with
  | Returns magic => Ok (magic, s, [])
  | Reverts reason => Revert reason
  end.

(** The external call to a recipient, in the block of timestamp [now]. *)
Fixpoint received (b : behaviour) (now : uint256) (s : state)
    : result (bool * state * list event) :=
  match b with
  | Behaviour calls outcome =>
      (fix nested (l : list callback) (s : state)
         : result (bool * state * list event) :=
         match l with
         | [] => answer outcome s
         | Callback sender c recipient :: l' =>
             match exec c (mkEnv sender now (received recipient now)) s with
             | Ok (_, s1, evs1) =>
                 match nested l' s1 with
                 | Ok (magic, s2, evs2) => Ok (magic, s2, evs1 ++ evs2)
                 | Revert reason => Revert reason
                 end
             | Revert _ => nested l' s
             end
         end) calls s
  end.

(** Every call a recipient makes, at every depth. *)
Fixpoint callbacks (b : behaviour) : list call :=
  match b with
  | Behaviour calls _ =>
      (fix all (l : list callback) : list call :=
         match l with
         | [] => []
         | Callback _ c recipient :: l' => c :: callbacks recipient ++ all l'
         end) calls
  end.

(** ** Transactions *)

(** Where a call from outside comes from: its sender, the timestamp of
    its block and the recipient its hook call reaches, if it makes one. *)
Record context := mkContext {
  ctx_sender : address;
  ctx_now : uint256;
  ctx_recipient : behaviour
}.

Definition env_of (o : context) : env :=
  mkEnv (ctx_sender o) (ctx_now o) (received (ctx_recipient o) (ctx_now o)).

(** A context stands for its [env] wherever a call is run in it. *)
Coercion env_of : context >-> env.

Record tx := mkTx { tx_context : context; tx_call : call }.

Definition tx_env (t : tx) : env := env_of (tx_context t).

(** Every call of a transaction: the call from outside and the calls
    nested in it. *)
Definition calls_of (t : tx) : list call :=
  tx_call t :: callbacks (ctx_recipient (tx_context t)).

(** Whether the recipient of the transaction calls into the registry. *)
Definition calls_back (t : tx) : bool :=
  match callbacks (ctx_recipient (tx_context t)) with
  | [] => false
  | _ :: _ => true
  end.

(** A transaction either commits the storage its call produced or, when
    the call reverts, leaves the storage as it was. *)
Definition step (s : state) (t : tx) : state :=
  match exec (tx_call t) (tx_env t) s with
  | Ok (_, s', _) => s'
  | Revert _ => s
  end.

Definition run (s : state) (txs : list tx) : state := fold_left step txs s.

(** The events a transaction leaves in the log: those of its call and of
    the calls nested in it, and none when it reverts. *)
Definition events_of (s : state) (t : tx) : list event :=
  match exec (tx_call t) (tx_env t) s with
  | Ok (_, _, evs) => evs
  | Revert _ => []
  end.

Fixpoint log (s : state) (txs : list tx) : list event :=
  match txs with
  | [] => []
  | t :: txs' => events_of s t ++ log (step s t) txs'
  end.

Definition empty_state : state :=
  mkState ∅ ∅ ∅ ∅ ∅ ∅ false 0 ∅ ∅ ∅.

(** The storage right after deployment by [deployer]. *)
Definition deploy (deployer : address) : state :=
  match constructor (mkContext deployer 0 account) empty_state with
  | Ok (_, s, _) => s
  | Revert _ => empty_state
  end.

(** ** Outcomes and preconditions

    For each gated function, what its modifier [onlyRole], its [require]s
    and the calls it makes ask for, the pause switch apart. *)

Definition succeeds {A : Type} (r : result A) : Prop := ∃ a, r = Ok a.

Definition reverts {A : Type} (r : result A) : Prop :=
  ∃ reason, r = Revert reason.

(** The id the next registration gets (lines 136-137). *)
Definition next_id (s : state) : uint256 := wrap (_propertyIdCounter s + 1).

(** The storage in which [_safeMint] calls the recipient (line 140): the
    counter is advanced and the token is minted; the attribute struct,
    the location index and the owner's list are not written yet. *)
Definition minted (s : state) (owner : address) : state :=
  set_owners <[next_id s := owner]>
    (set_balances <[owner := wrap (balanceOf_raw s owner + 1)]>
       (set_propertyIdCounter (λ v, wrap (v + 1)) s)).

(** The recipient returns the magic value. *)
Definition accepts (e : env) (s : state) : Prop :=
  ∃ s' evs, onERC721Received e s = Ok (true, s', evs).

(** The recipient makes no call into the registry. *)
Definition quiet (e : env) : Prop :=
  ∀ s magic s' evs,
    onERC721Received e s = Ok (magic, s', evs) → s' = s ∧ evs = [].

Definition registerProperty_pre (e : env) (owner : address) (loc : string)
    (area_ : uint256) (s : state) : Prop :=
  hasRole s NOTARY_ROLE (msg_sender e) = true ∧
  owner ≠ 0 ∧
  0 < Z.of_nat (String.length loc) ∧
  0 < area_ ∧
  locationToPropertyId s loc = 0 ∧
  _exists s (next_id s) = false ∧
  ∃ s' evs,
    onERC721Received e (minted s owner) = Ok (true, s', evs) ∧
    _exists s' (next_id s) = true.

Definition transferProperty_pre (e : env) (propertyId : uint256)
    (newOwner : address) (s : state) : Prop :=
  hasRole s NOTARY_ROLE (msg_sender e) = true ∧
  _exists s propertyId = true ∧
  newOwner ≠ 0 ∧
  status (property_at s propertyId) = ACTIVE ∧
  _ownerOf s propertyId ≠ newOwner.

Definition verifyProperty_pre (e : env) (propertyId : uint256) (s : state)
    : Prop :=
  hasRole s SURVEYOR_ROLE (msg_sender e) = true ∧ _exists s propertyId = true.

Definition changePropertyStatus_pre (e : env) (propertyId : uint256)
    (s : state) : Prop :=
  hasRole s ADMIN_ROLE (msg_sender e) = true ∧ _exists s propertyId = true.

Definition updatePropertyValue_pre (e : env) (propertyId newValue : uint256)
    (s : state) : Prop :=
  hasRole s TAX_AUTHORITY_ROLE (msg_sender e) = true ∧
  _exists s propertyId = true ∧
  0 < newValue.

(** ** Histories *)

Definition is_ok {A : Type} (r : result A) : bool :=
  match r with Ok _ => true | Revert _ => false end.

Definition is_registration (c : call) : bool :=
  match c with
  | RegisterProperty _ _ _ _ _ _ _ _ => true
  | _ => false
  end.

(** A successful [registerProperty] emits [PropertyRegistered] as its
    last event (line 163), and no other function emits it: the log counts
    the registrations that succeeded, at every depth of call. *)
Definition registration_at (loc : string) (ev : event) : bool :=
  match ev with
  | PropertyRegistered _ _ l _ _ => bool_decide (l = loc)
  | _ => false
  end.

Definition is_registered (ev : event) : bool :=
  match ev with
  | PropertyRegistered _ _ _ _ _ => true
  | _ => false
  end.

(** The number of registrations a log records. *)
Fixpoint registrations (evs : list event) : nat :=
  match evs with
  | [] => 0
  | ev :: evs' =>
      ((if is_registered ev then 1 else 0) + registrations evs')%nat
  end.

(** Whether a log records a registration for the location [loc]. *)
Definition registered_at (loc : string) (evs : list event) : bool :=
  existsb (registration_at loc) evs.

(** What every call but [registerProperty] leaves as it is. *)
Definition same_registry (s s' : state) : Prop :=
  _propertyIdCounter s' = _propertyIdCounter s ∧
  _locationToPropertyId s' = _locationToPropertyId s ∧
  (∀ i, location (property_at s' i) = location (property_at s i)) ∧
  (∀ i, _exists s' i = _exists s i).

(** The registry invariant: the ids in use are [1 .. counter], and the
    location index and the stored locations agree. *)
Definition registry_inv (s : state) : Prop :=
  0 ≤ _propertyIdCounter s ≤ MAX_UINT256 ∧
  (∀ i, _exists s i = true ↔ 1 ≤ i ≤ _propertyIdCounter s) ∧
  (∀ i, 1 ≤ i ≤ _propertyIdCounter s →
        locationToPropertyId s (location (property_at s i)) = i) ∧
  (∀ loc, locationToPropertyId s loc ≠ 0 →
          1 ≤ locationToPropertyId s loc ≤ _propertyIdCounter s ∧
          location (property_at s (locationToPropertyId s loc)) = loc).

(** The inherited token transfers, which bypass [transferProperty]. *)
Definition is_direct_transfer (c : call) : bool :=
  match c with
  | TransferFrom _ _ _ | SafeTransferFrom _ _ _ => true
  | _ => false
  end.

(** The per-owner lists agree with token ownership: no list holds an id
    twice, and an id is in the list of its owner only. *)
Definition index_inv (s : state) : Prop :=
  ∀ a, NoDup (ownerProperties s a) ∧
       ∀ i, i ∈ ownerProperties s a → _ownerOf s i = a ∧ a ≠ 0.

(** ** Sample histories *)

(** Every recipient is an account, or takes the token and calls
    nothing. *)
Definition at_time (sender : address) (now : uint256) : context :=
  mkContext sender now account.

(** The deployer [1] grants the notary role to [2]. *)
Definition notary_history : list tx :=
  [ mkTx (at_time 1 10) (GrantRole NOTARY_ROLE 2) ].

(** The notary then registers a lot for [10]. *)
Definition registration_history : list tx :=
  notary_history ++
  [ mkTx (at_time 2 20)
      (RegisterProperty 10 "Lot 7" "4.05,9.70" 250 9000 AGRICULTURAL
         "QmDeed" "ipfs://QmMeta") ].

(** The owner [10] then hands the token to [11] through the inherited
    [transferFrom], and the notary transfers the property back to [10]. *)
Definition direct_transfer_history : list tx :=
  registration_history ++
  [ mkTx (at_time 10 30) (TransferFrom 10 11 1);
    mkTx (at_time 2 40) (TransferProperty 1 10 9500) ].

(** The deployer also grants the surveyor role to [3]. *)
Definition survey_history : list tx :=
  registration_history ++ [ mkTx (at_time 1 25) (GrantRole SURVEYOR_ROLE 3) ].

(** The deployer pauses the registry after the registration. *)
Definition paused_history : list tx :=
  registration_history ++ [ mkTx (at_time 1 30) Pause ].

(** The deployer grants the notary role to the contract [20] too. *)
Definition contract_notary_history : list tx :=
  registration_history ++ [ mkTx (at_time 1 25) (GrantRole NOTARY_ROLE 20) ].

(** The contract [20], when it receives a token, registers a property of
    its own for [21] at "Lot 8" before it answers. *)
Definition reregistering : behaviour :=
  Behaviour
    [ Callback 20
        (RegisterProperty 21 "Lot 8" "4.2,9.9" 80 700 RESIDENTIAL "QmDeed3"
           "ipfs://QmMeta3")
        account ]
    (Returns true).

(** The notary [2] registers "Lot 8" for the contract [20]. *)
Definition reentrant_registration : tx :=
  mkTx (mkContext 2 60 reregistering)
    (RegisterProperty 20 "Lot 8" "4.1,9.8" 120 500 RESIDENTIAL "QmDeed2"
       "ipfs://QmMeta2").

(** The contract [30], when it receives the token [2], passes it on to
    [31] before it answers. *)
Definition forwarding : behaviour :=
  Behaviour [ Callback 30 (TransferFrom 30 31 2) account ] (Returns true).

(** * The API client of the frontend (services/apiService.ts) *)

(** What the response interceptor reads and writes in the browser. *)
Record browser := mkBrowser {
  localStorage : gmap string string;
  window_location_href : string
}.

Record AxiosResponse := mkAxiosResponse {
  response_status : Z;
  response_data : string
}.

(** [error.response] is absent when no response arrived (network error,
    timeout). *)
Record AxiosError := mkAxiosError {
  error_message : string;
  error_response : option AxiosResponse
}.

Inductive promise (A : Type) :=
  | Resolved (a : A)
  | Rejected (error : AxiosError).

Arguments Resolved {A} a.
Arguments Rejected {A} error.

Definition removeItem (key : string) (b : browser) : browser :=
  mkBrowser (delete key (localStorage b)) (window_location_href b).

Definition set_window_location_href (href : string) (b : browser) : browser :=
  mkBrowser (localStorage b) href.

(** Line 106: [(response) => response]. *)
Definition response_onFulfilled (response : AxiosResponse) (b : browser)
    : browser * promise AxiosResponse :=
  (b, Resolved response).

(** Lines 107-114: on [error.response?.status === 401] the token is
    removed and the page redirected; the error is rejected again in every
    case. *)
Definition response_onRejected (error : AxiosError) (b : browser)
    : browser * promise AxiosResponse :=
  let status := response_status <$> error_response error in
  let b' :=
    if bool_decide (status = Some 401) then
      set_window_location_href "/" (removeItem "auth_token" b)
    else b in
  (b', Rejected error).

(** The message axios gives the error of a rejected status:
    ['Request failed with status code ' + response.status]. *)
Definition status_message (status : string) : string :=
  String.append "Request failed with status code " status.

(** axios settles a response by its default [validateStatus]: a status in
    [200, 300) resolves, any other rejects with the response attached to
    the error.  The client of [ApiService] is created without a
    [validateStatus] of its own (lines 82-88). *)
Definition settle (response : AxiosResponse) : promise AxiosResponse :=
  if (200 <=? response_status response) && (response_status response <? 300)
  then Resolved response
  else Rejected
         (mkAxiosError (status_message (pretty (response_status response)))
            (Some response)).

(** A settled response passes through the response interceptor. *)
Definition intercept (p : promise AxiosResponse) (b : browser)
    : browser * promise AxiosResponse :=
  match p with
  | Resolved response => response_onFulfilled response b
  | Rejected error => response_onRejected error b
  end.

Definition receive (response : AxiosResponse) (b : browser)
    : browser * promise AxiosResponse :=
  intercept (settle response) b.

(** A browser holding a token and a language preference. *)
Definition logged_in : browser :=
  mkBrowser (<["auth_token" := "eyJhbGciOi"]> (<["lang" := "fr"]> ∅))
    "/properties".

(** * Notions used by the further properties of the registry *)

(** The attributes a property gets at registration and that no function
    writes again. *)
Definition same_deed (p q : Property) : Prop :=
  id p = id q ∧ location p = location q ∧ coordinates p = coordinates q ∧
  area p = area q ∧ propertyType p = propertyType q ∧
  registrationDate p = registrationDate q ∧
  documentHash p = documentHash q ∧ registrar p = registrar q.

Definition is_status_change (c : call) : bool :=
  match c with ChangePropertyStatus _ _ => true | _ => false end.

Definition is_verification (c : call) : bool :=
  match c with VerifyProperty _ _ => true | _ => false end.

(** The history that follows the sample registration: the notary moves
    the property to [11], the admin freezes it, the tax authority role is
    granted and used. *)
Definition later_history : list tx :=
  [ mkTx (at_time 2 30) (TransferProperty 1 11 9500);
    mkTx (at_time 1 40) (ChangePropertyStatus 1 FROZEN);
    mkTx (at_time 1 50) (GrantRole TAX_AUTHORITY_ROLE 4);
    mkTx (at_time 4 60) (UpdatePropertyValue 1 12000);
    mkTx (at_time 11 70) (TransferFrom 11 12 1) ].

(** Every token is in the list of its owner. *)
Definition index_complete (s : state) : Prop :=
  ∀ i, _exists s i = true → i ∈ ownerProperties s (_ownerOf s i).

(** What is left of [post], the entries after the one removed, once its
    last entry has been moved into the freed slot. *)
Definition swap_pop (post : list Z) : list Z :=
  match post with
  | [] => []
  | _ :: _ => List.last post 0 :: removelast post
  end.

(** What the inherited [transferFrom] asks for, the pause switch apart:
    the token exists, [from] owns it, the recipient is not the zero
    address, and the caller is the owner, an operator of the owner or the
    approved address. *)
Definition transferFrom_pre (e : env) (from to : address)
    (tokenId : uint256) (s : state) : Prop :=
  _exists s tokenId = true ∧
  _ownerOf s tokenId = from ∧
  to ≠ 0 ∧
  ((msg_sender e =? from) || isApprovedForAll s from (msg_sender e)
   || (getApproved_raw s tokenId =? msg_sender e)) = true.

(** ** What calls keep, whatever recipients do

    A relation between the storage before a successful call, the events
    it emitted and the storage after it.  When the call to the recipient
    is known to satisfy the relation, so is the call that makes it. *)

Definition hook_respects (R : state → list event → state → Prop) (e : env)
    : Prop :=
  ∀ s magic s' evs, onERC721Received e s = Ok (magic, s', evs) → R s evs s'.

(** Tokens in use stay in use, with the attributes fixed at
    registration. *)
Definition keeps_deeds (s s' : state) : Prop :=
  ∀ i, _exists s i = true →
       _exists s' i = true ∧ same_deed (property_at s' i) (property_at s i).

Definition well_formed_at (s : state) (i : uint256) : Prop :=
  id (property_at s i) = i ∧
  0 < Z.of_nat (String.length (location (property_at s i))) ∧
  0 < area (property_at s i).

(** The tokens that were in order before are in order afterwards, and so
    are the new ones. *)
Definition grows_well_formed (s s' : state) : Prop :=
  ∀ i, _exists s' i = true →
       (_exists s i = true → well_formed_at s i) → well_formed_at s' i.

(** The registry along the log of a call, as long as the id counter,
    an unchecked [uint256], does not wrap around: the counter advances by
    the number of registrations, the new ids are the counter values passed,
    a location is indexed exactly when it was before or a registration
    for it is in the log, a new index entry points to a new id whose
    struct carries the location, and the structs of the tokens that were
    in use keep their location. *)
Definition counts (s : state) (evs : list event) (s' : state) : Prop :=
  0 ≤ _propertyIdCounter s →
  _propertyIdCounter s + Z.of_nat (registrations evs) ≤ MAX_UINT256 →
  _propertyIdCounter s'
    = _propertyIdCounter s + Z.of_nat (registrations evs) ∧
  (∀ i, _exists s' i = true ↔
        _exists s i = true ∨
        _propertyIdCounter s < i ≤ _propertyIdCounter s') ∧
  (∀ loc, locationToPropertyId s' loc = 0 ↔
          locationToPropertyId s loc = 0 ∧ registered_at loc evs = false) ∧
  (∀ loc, locationToPropertyId s' loc = locationToPropertyId s loc ∨
          (_propertyIdCounter s < locationToPropertyId s' loc
             ≤ _propertyIdCounter s' ∧
           location (property_at s' (locationToPropertyId s' loc)) = loc)) ∧
  (∀ i, _exists s i = true →
        location (property_at s' i) = location (property_at s i)).

Definition all_active (s : state) : Prop :=
  ∀ i, status (property_at s i) = ACTIVE.

Definition all_unverified (s : state) : Prop :=
  ∀ i, verified (property_at s i) = false.

(** * Further functions of the API client (services/apiService.ts) *)

Definition getItem (key : string) (b : browser) : option string :=
  localStorage b !! key.

Definition setItem (key value_ : string) (b : browser) : browser :=
  mkBrowser (<[key := value_]> (localStorage b)) (window_location_href b).

(** Lines 348-354. *)
Definition setAuthToken (token : string) (b : browser) : browser :=
  setItem "auth_token" token b.

Definition clearAuthToken (b : browser) : browser :=
  removeItem "auth_token" b.

(** The part of a request configuration the request interceptor reads and
    writes. *)
Record AxiosRequestConfig := mkAxiosRequestConfig {
  config_url : string;
  config_headers : gmap string string
}.

(** Lines 91-98: [if (token)] holds for a stored token that is not the
    empty string. *)
Definition request_onFulfilled (config : AxiosRequestConfig) (b : browser)
    : AxiosRequestConfig :=
  match getItem "auth_token" b with
  | Some token =>
      if negb (String.eqb token "") then
        mkAxiosRequestConfig (config_url config)
          (<["Authorization" := String.append "Bearer " token]>
             (config_headers config))
      else config
  | None => config
  end.

(** A JavaScript value as [||] and [new Error] read it: a falsy value
    other than a string ([undefined], [null], [0], [false]), a string, or
    a truthy value that is not a string, with the string [String] makes of
    it. *)
Inductive js_value :=
  | JFalsy
  | JString (s : string)
  | JObject (shown : string).

Definition truthy (v : js_value) : bool :=
  match v with
  | JFalsy => false
  | JString s => negb (String.eqb s "")
  | JObject _ => true
  end.

Definition js_or (a b : js_value) : js_value := if truthy a then a else b.

Definition js_String (v : js_value) : string :=
  match v with
  | JFalsy => "undefined"
  | JString s => s
  | JObject shown => shown
  end.

Inductive outcome (A : Type) :=
  | Returned (a : A)
  | Thrown (message : string).

Arguments Returned {A} a.
Arguments Thrown {A} message.

(** Lines 119-127.  [detail_of] reads the field [detail] of a parsed
    response body; [error.response?.data?.detail] is falsy when there is
    no response. *)
Definition handleResponse (detail_of : string → js_value)
    (p : promise AxiosResponse) : outcome string :=
  match p with
  | Resolved response => Returned (response_data response)
  | Rejected error =>
      let detail :=
        match error_response error with
        | Some response => detail_of (response_data response)
        | None => JFalsy
        end in
      Thrown (js_String
                (js_or detail
                   (js_or (JString (error_message error))
                      (JString "Erreur API"))))
  end.

(** [String.prototype.includes]. *)
Fixpoint includes (needle haystack : string) : bool :=
  String.prefix needle haystack ||
  match haystack with
  | EmptyString => false
  | String _ rest => includes needle rest
  end.

(** Lines 141-152: [null] is [None]. *)
Definition getUserByWallet (detail_of : string → js_value)
    (p : promise AxiosResponse) : outcome (option string) :=
  match handleResponse detail_of p with
  | Returned user => Returned (Some user)
  | Thrown message =>
      if includes "404" message then Returned None else Thrown message
  end.

(** A filter value: [undefined], or a number, string or boolean given by
    what [toString] makes of it (lines 47-54). *)
Inductive filter_value :=
  | FUndefined
  | FNumber (shown : string)
  | FString (s : string)
  | FBoolean (b : bool).

Definition filter_toString (v : filter_value) : string :=
  match v with
  | FUndefined => "undefined"
  | FNumber shown => shown
  | FString s => s
  | FBoolean true => "true"
  | FBoolean false => "false"
  end.

(** Lines 180-185 and 237-242: the entries of [filters], in the order of
    [Object.entries], appended to the [URLSearchParams] unless the value
    is [undefined]. *)
Fixpoint filter_params (entries : list (string * filter_value))
    : list (string * string) :=
  match entries with
  | [] => []
  | (key, FUndefined) :: rest => filter_params rest
  | (key, v) :: rest => (key, filter_toString v) :: filter_params rest
  end.

Definition is_defined (v : filter_value) : bool :=
  match v with FUndefined => false | _ => true end.

(** * Reasoning about calls *)

Lemma reverts_not_succeeds {A : Type} (r : result A) :
  reverts r ↔ ¬ succeeds r.
Proof.
  destruct r as [a|msg]; split.
  - intros [? ?]. discriminate.
  - intros H. exfalso. apply H. by exists a.
  - intros _ [? ?]. discriminate.
  - intros _. by exists msg.
Qed.

Ltac unfold_M :=
  unfold registerProperty, transferProperty, transferProperty_prepare,
    verifyProperty, changePropertyStatus, updatePropertyValue, pause,
    unpause, _pause, _unpause, grantRole, revokeRole, renounceRole,
    _grantRole, _revokeRole, approve, setApprovalForAll, transferFrom,
    safeTransferFrom, _isApprovedOrOwner, _transfer, _safeMint, _mint,
    _setTokenURI, _beforeTokenTransfer, ownerOf, _removePropertyFromOwner,
    Counters_increment, Counters_current, onlyRole, _checkRole,
    whenNotPaused, whenPaused, _checkOnERC721Received, require, get, modify,
    emit, _msgSender, timestamp, mbind, mret, M_bind, M_ret.

Ltac unfold_get :=
  unfold _exists in *;
  unfold property_at, ownerProperties, _ownerOf, locationToPropertyId,
    hasRole, balanceOf_raw, getApproved_raw, isApprovedForAll in *.

Ltac bool_norm :=
  repeat match goal with
  | H : negb _ = true |- _ => apply negb_true_iff in H
  | H : negb _ = false |- _ => apply negb_false_iff in H
  | H : (_ =? _) = true |- _ => apply Z.eqb_eq in H
  | H : (_ =? _) = false |- _ => apply Z.eqb_neq in H
  | H : (_ <? _) = true |- _ => apply Z.ltb_lt in H
  | H : (_ <? _) = false |- _ => apply Z.ltb_ge in H
  | H : status_eqb _ _ = true |- _ => apply bool_decide_eq_true in H
  | H : status_eqb _ _ = false |- _ => apply bool_decide_eq_false in H
  end.

(** Runs a successful call backwards through every [require]. *)
Ltac inv_M :=
  unfold_M; intros; repeat (case_match; simplify_eq/=); try done.

(** Refutes a [Revert] outcome when every [require] is met. *)
Ltac no_revert :=
  exfalso;
  match goal with E : _ = Revert _ |- _ => revert E end;
  inv_M; unfold_get; simpl in *; bool_norm; simplify_map_eq;
  try congruence; try lia.

Ltac map_facts :=
  repeat split; try done; unfold_get; simpl; intros; simplify_map_eq;
  try done.

Lemma exists_ownerOf s tokenId :
  _exists s tokenId = true ↔ _ownerOf s tokenId ≠ 0.
Proof.
  unfold _exists. rewrite negb_true_iff. apply Z.eqb_neq.
Qed.

Lemma not_exists_ownerOf s tokenId :
  _exists s tokenId = false ↔ _ownerOf s tokenId = 0.
Proof.
  unfold _exists. rewrite negb_false_iff. apply Z.eqb_eq.
Qed.

(** ** registerProperty *)

(** A successful [registerProperty], taken apart at the call to the
    recipient: the checks, the storage handed to the recipient, and what
    is written to the storage the recipient returned. *)
Lemma registerProperty_inv e s owner loc co ar va pt dh uri pid s' evs :
  registerProperty owner loc co ar va pt dh uri e s = Ok (pid, s', evs) →
  (_paused s = false ∧ registerProperty_pre e owner loc ar s) ∧
  pid = next_id s ∧
  ∃ s2 evs2,
    onERC721Received e (minted s owner) = Ok (true, s2, evs2) ∧
    _exists s2 pid = true ∧
    _propertyIdCounter s' = _propertyIdCounter s2 ∧
    _owners s' = _owners s2 ∧
    _balances s' = _balances s2 ∧
    _tokenApprovals s' = _tokenApprovals s2 ∧
    _operatorApprovals s' = _operatorApprovals s2 ∧
    properties s' =
      <[pid := mkProperty pid loc co ar va pt ACTIVE (block_timestamp e)
                 (block_timestamp e) dh (msg_sender e) false]>
        (properties s2) ∧
    _locationToPropertyId s' = <[loc := pid]> (_locationToPropertyId s2) ∧
    _ownerProperties s' =
      <[owner := ownerProperties s2 owner ++ [pid]]> (_ownerProperties s2) ∧
    _roles s' = _roles s2 ∧ _paused s' = _paused s2 ∧
    evs = Transfer 0 owner pid :: evs2 ++
          [MetadataUpdate pid;
           PropertyRegistered pid owner loc va (msg_sender e)].
Proof.
  unfold registerProperty_pre, minted, next_id.
  inv_M. bool_norm. unfold _exists in *. simpl in *. bool_norm.
  match goal with
  | H : onERC721Received e _ = Ok (true, ?s2, ?evs2) |- _ =>
      split; [|split; [done|exists s2, evs2]]
  end.
  - repeat split; try done.
    + apply negb_false_iff, Z.eqb_eq. assumption.
    + eexists _, _. split; [eassumption|]. by apply negb_true_iff, Z.eqb_neq.
  - repeat split; try done.
    + by apply negb_true_iff, Z.eqb_neq.
    + by rewrite <- app_assoc.
Qed.

Lemma registerProperty_ok e s owner loc co ar va pt dh uri :
  _paused s = false → registerProperty_pre e owner loc ar s →
  succeeds (registerProperty owner loc co ar va pt dh uri e s).
Proof.
  intros Hp (Hr & Ho & Hl & Ha & Hm & Hx & s2 & evs2 & Hacc & Hx2).
  unfold minted, next_id in *.
  destruct (registerProperty _ _ _ _ _ _ _ _ e s) as [a|msg] eqn:E;
    [by exists a|].
  exfalso. revert E.
  inv_M; unfold_get; bool_norm; simplify_map_eq; try congruence; try lia.
Qed.

Lemma registerProperty_succeeds_iff e s owner loc co ar va pt dh uri :
  succeeds (registerProperty owner loc co ar va pt dh uri e s) ↔
  _paused s = false ∧ registerProperty_pre e owner loc ar s.
Proof.
  split.
  - intros [[[pid s'] evs] H]. by apply registerProperty_inv in H as [? _].
  - intros [? ?]. by apply registerProperty_ok.
Qed.

(** With a recipient that makes no call, the storage the registry
    writes to is the one it handed over. *)
Lemma registerProperty_quiet e s owner loc co ar va pt dh uri pid s' evs :
  quiet e →
  registerProperty owner loc co ar va pt dh uri e s = Ok (pid, s', evs) →
  (_paused s = false ∧ registerProperty_pre e owner loc ar s) ∧
  pid = next_id s ∧
  _propertyIdCounter s' = pid ∧
  _owners s' = <[pid := owner]> (_owners s) ∧
  properties s' =
    <[pid := mkProperty pid loc co ar va pt ACTIVE (block_timestamp e)
               (block_timestamp e) dh (msg_sender e) false]> (properties s) ∧
  _locationToPropertyId s' = <[loc := pid]> (_locationToPropertyId s) ∧
  _ownerProperties s' =
    <[owner := ownerProperties s owner ++ [pid]]> (_ownerProperties s) ∧
  _roles s' = _roles s ∧ _paused s' = _paused s ∧
  evs = [Transfer 0 owner pid; MetadataUpdate pid;
         PropertyRegistered pid owner loc va (msg_sender e)].
Proof.
  intros Hq H.
  apply registerProperty_inv in H
    as (Hpre & -> & s2 & evs2 & Hacc & _ & Hc & Hown & _ & _ & _ & Hprop
        & Hloc & Hidx & Hroles & Hpaused & ->).
  apply Hq in Hacc as [-> ->].
  split; [done|]. split; [done|].
  rewrite Hc, Hown, Hprop, Hloc, Hidx, Hroles, Hpaused.
  unfold minted, ownerProperties. simpl. done.
Qed.

(** ** transferProperty *)

Lemma transferProperty_inv e s pid no nv u s' evs :
  transferProperty pid no nv e s = Ok (u, s', evs) →
  (_paused s = false ∧ transferProperty_pre e pid no s) ∧
  _ownerOf s' pid = no ∧
  (∀ j, j ≠ pid → _ownerOf s' j = _ownerOf s j) ∧
  property_at s' pid =
    with_status ACTIVE
      (with_lastTransferDate (block_timestamp e)
         (with_value nv (property_at s pid))) ∧
  (∀ j, j ≠ pid → properties s' !! j = properties s !! j) ∧
  ownerProperties s' no = ownerProperties s no ++ [pid] ∧
  ownerProperties s' (_ownerOf s pid) =
    _removeLoop (ownerProperties s (_ownerOf s pid)) 0
      (ownerProperties s (_ownerOf s pid)) pid ∧
  (∀ a, a ≠ no → a ≠ _ownerOf s pid →
        ownerProperties s' a = ownerProperties s a) ∧
  _propertyIdCounter s' = _propertyIdCounter s ∧
  _locationToPropertyId s' = _locationToPropertyId s ∧
  _roles s' = _roles s ∧ _paused s' = _paused s ∧
  evs = [Transfer (_ownerOf s pid) no pid;
         PropertyTransferred pid (_ownerOf s pid) no nv].
Proof.
  unfold transferProperty_pre. inv_M. bool_norm. map_facts.
Qed.

(** The state in which [_transfer] runs: the property is marked
    TRANSFERRED, the per-owner lists are already updated, the token is
    still with the current owner. *)
Lemma transferProperty_during e s pid no nv u s' evs :
  transferProperty pid no nv e s = Ok (u, s', evs) →
  ∃ mid,
    transferProperty_prepare pid no nv e s = Ok (_ownerOf s pid, mid, []) ∧
    status (property_at mid pid) = TRANSFERRED ∧
    _ownerOf mid pid = _ownerOf s pid ∧
    ∃ mid', _transfer (_ownerOf s pid) no pid e mid
              = Ok (tt, mid', [Transfer (_ownerOf s pid) no pid]) ∧
            status (property_at mid' pid) = TRANSFERRED ∧
            _ownerOf mid' pid = no ∧
            s' = set_properties
                   <[pid := with_status ACTIVE (property_at mid' pid)]> mid'.
Proof.
  intros H.
  destruct (transferProperty_prepare pid no nv e s) as [[[cur mid] ev0]|msg]
    eqn:Hprep; revert H; unfold transferProperty;
    unfold mbind at 1 2 3 4 5; unfold M_bind;
    destruct (onlyRole NOTARY_ROLE e s) as [[[[] s0] ev1]|] eqn:Hrole;
    try done;
    destruct (whenNotPaused e s0) as [[[[] s1] ev2]|] eqn:Hpause; try done.
  all: assert (s0 = s) as -> by (revert Hrole; inv_M).
  all: assert (s1 = s) as -> by (revert Hpause; inv_M).
  all: rewrite Hprep; try done.
  assert (cur = _ownerOf s pid ∧ ev0 = []) as [-> ->]
    by (revert Hprep; inv_M).
  destruct (_transfer (_ownerOf s pid) no pid e mid)
    as [[[[] mid'] ev3]|] eqn:Htr; [|done].
  intros H. exists mid. split; [done|].
  assert (status (property_at mid pid) = TRANSFERRED ∧
          _ownerOf mid pid = _ownerOf s pid) as [Hst Hown].
  { revert Hprep. clear. inv_M. map_facts. }
  split; [done|]. split; [done|].
  exists mid'.
  assert (ev3 = [Transfer (_ownerOf s pid) no pid] ∧
          properties mid' = properties mid ∧ _ownerOf mid' pid = no)
    as (-> & Hprops & Hown').
  { revert Htr. clear. inv_M. map_facts. }
  split; [done|].
  split; [unfold property_at in *; by rewrite Hprops|].
  split; [done|].
  revert H. clear. unfold_M. simpl. intros. by simplify_eq.
Qed.

Lemma transferProperty_ok e s pid no nv :
  _paused s = false → transferProperty_pre e pid no s →
  succeeds (transferProperty pid no nv e s).
Proof.
  intros Hp (Hr & Hx & Ho & Hs & Hne).
  destruct (transferProperty pid no nv e s) as [a|msg] eqn:E;
    [by exists a|].
  no_revert.
Qed.

Lemma transferProperty_succeeds_iff e s pid no nv :
  succeeds (transferProperty pid no nv e s) ↔
  _paused s = false ∧ transferProperty_pre e pid no s.
Proof.
  split.
  - intros [[[[] s'] evs] H]. by apply transferProperty_inv in H as [? _].
  - intros [? ?]. by apply transferProperty_ok.
Qed.

(** ** verifyProperty, changePropertyStatus, updatePropertyValue *)

Lemma verifyProperty_inv e s pid b r :
  verifyProperty pid b e s = Ok r →
  (_paused s = false ∧ verifyProperty_pre e pid s) ∧
  r = (tt,
       set_properties <[pid := with_verified b (property_at s pid)]> s,
       [PropertyVerified pid (msg_sender e) b]).
Proof. unfold verifyProperty_pre. inv_M. bool_norm. done. Qed.

Lemma verifyProperty_ok e s pid b :
  _paused s = false → verifyProperty_pre e pid s →
  verifyProperty pid b e s =
    Ok (tt,
        set_properties <[pid := with_verified b (property_at s pid)]> s,
        [PropertyVerified pid (msg_sender e) b]).
Proof.
  intros Hp [Hr Hx].
  destruct (verifyProperty pid b e s) as [r|msg] eqn:E.
  - by apply verifyProperty_inv in E as [_ ->].
  - no_revert.
Qed.

Lemma verifyProperty_succeeds_iff e s pid b :
  succeeds (verifyProperty pid b e s) ↔
  _paused s = false ∧ verifyProperty_pre e pid s.
Proof.
  split.
  - intros [r H]. by apply verifyProperty_inv in H as [? _].
  - intros [? ?]. eexists. by apply verifyProperty_ok.
Qed.

Lemma changePropertyStatus_inv e s pid st r :
  changePropertyStatus pid st e s = Ok r →
  (_paused s = false ∧ changePropertyStatus_pre e pid s) ∧
  r = (tt,
       set_properties <[pid := with_status st (property_at s pid)]> s,
       [PropertyStatusChanged pid (status (property_at s pid)) st]).
Proof. unfold changePropertyStatus_pre. inv_M. bool_norm. done. Qed.

Lemma changePropertyStatus_ok e s pid st :
  _paused s = false → changePropertyStatus_pre e pid s →
  changePropertyStatus pid st e s =
    Ok (tt,
        set_properties <[pid := with_status st (property_at s pid)]> s,
        [PropertyStatusChanged pid (status (property_at s pid)) st]).
Proof.
  intros Hp [Hr Hx].
  destruct (changePropertyStatus pid st e s) as [r|msg] eqn:E.
  - by apply changePropertyStatus_inv in E as [_ ->].
  - no_revert.
Qed.

Lemma changePropertyStatus_succeeds_iff e s pid st :
  succeeds (changePropertyStatus pid st e s) ↔
  _paused s = false ∧ changePropertyStatus_pre e pid s.
Proof.
  split.
  - intros [r H]. by apply changePropertyStatus_inv in H as [? _].
  - intros [? ?]. eexists. by apply changePropertyStatus_ok.
Qed.

Lemma updatePropertyValue_inv e s pid nv r :
  updatePropertyValue pid nv e s = Ok r →
  (_paused s = false ∧ updatePropertyValue_pre e pid nv s) ∧
  r = (tt,
       set_properties <[pid := with_value nv (property_at s pid)]> s,
       [PropertyValueUpdated pid (value (property_at s pid)) nv
          (msg_sender e)]).
Proof. unfold updatePropertyValue_pre. inv_M. bool_norm. done. Qed.

Lemma updatePropertyValue_ok e s pid nv :
  _paused s = false → updatePropertyValue_pre e pid nv s →
  updatePropertyValue pid nv e s =
    Ok (tt,
        set_properties <[pid := with_value nv (property_at s pid)]> s,
        [PropertyValueUpdated pid (value (property_at s pid)) nv
           (msg_sender e)]).
Proof.
  intros Hp (Hr & Hx & Hv).
  destruct (updatePropertyValue pid nv e s) as [r|msg] eqn:E.
  - by apply updatePropertyValue_inv in E as [_ ->].
  - no_revert.
Qed.

Lemma updatePropertyValue_succeeds_iff e s pid nv :
  succeeds (updatePropertyValue pid nv e s) ↔
  _paused s = false ∧ updatePropertyValue_pre e pid nv s.
Proof.
  split.
  - intros [r H]. by apply updatePropertyValue_inv in H as [? _].
  - intros [? ?]. eexists. by apply updatePropertyValue_ok.
Qed.

(** ** pause, unpause *)

Lemma pause_spec e s r :
  pause e s = Ok r ↔
  (hasRole s ADMIN_ROLE (msg_sender e) = true ∧ _paused s = false) ∧
  r = (tt, set_paused true s, [Paused (msg_sender e)]).
Proof.
  split.
  - inv_M. bool_norm. done.
  - intros [[Hr Hp] ->].
    destruct (pause e s) as [r|msg] eqn:E; [|no_revert].
    revert E. inv_M.
Qed.

Lemma unpause_spec e s r :
  unpause e s = Ok r ↔
  (hasRole s ADMIN_ROLE (msg_sender e) = true ∧ _paused s = true) ∧
  r = (tt, set_paused false s, [Unpaused (msg_sender e)]).
Proof.
  split.
  - inv_M.
  - intros [[Hr Hp] ->].
    destruct (unpause e s) as [r|msg] eqn:E; [|no_revert].
    revert E. inv_M.
Qed.

(** ** Outcomes of [exec] *)

Lemma exec_register_succeeds e s owner loc co ar va pt dh uri :
  succeeds (exec (RegisterProperty owner loc co ar va pt dh uri) e s) ↔
  succeeds (registerProperty owner loc co ar va pt dh uri e s).
Proof.
  unfold exec, mbind, M_bind, mret, M_ret, succeeds.
  destruct (registerProperty owner loc co ar va pt dh uri e s)
    as [[[pid s'] evs]|msg]; split; intros [a H]; try done; eauto.
Qed.

Lemma exec_register_inv e s owner loc co ar va pt dh uri u s' evs :
  exec (RegisterProperty owner loc co ar va pt dh uri) e s = Ok (u, s', evs) →
  registerProperty owner loc co ar va pt dh uri e s = Ok (next_id s, s', evs).
Proof.
  unfold exec, mbind, M_bind, mret, M_ret.
  destruct (registerProperty owner loc co ar va pt dh uri e s)
    as [[[pid s1] evs1]|msg] eqn:E; [|done].
  intros [= <- <- <-]. rewrite app_nil_r.
  apply registerProperty_inv in E as (_ & -> & _). done.
Qed.

(** [safeTransferFrom] is [transferFrom] followed by the call to the
    recipient, whose storage and events it returns. *)
Lemma safeTransferFrom_inv e s from to tokenId u s' evs :
  safeTransferFrom from to tokenId e s = Ok (u, s', evs) →
  ∃ s1 evs2,
    transferFrom from to tokenId e s
      = Ok (tt, s1, [Transfer from to tokenId]) ∧
    onERC721Received e s1 = Ok (true, s', evs2) ∧
    evs = Transfer from to tokenId :: evs2.
Proof.
  inv_M.
  match goal with
  | H : onERC721Received e ?s1 = Ok (true, ?s2, ?evs2) |- _ =>
      exists s1, evs2
  end.
  repeat split; try done. by rewrite app_nil_r.
Qed.

Lemma safeTransferFrom_ok e s from to tokenId s1 evs1 s' evs2 :
  transferFrom from to tokenId e s = Ok (tt, s1, evs1) →
  onERC721Received e s1 = Ok (true, s', evs2) →
  safeTransferFrom from to tokenId e s = Ok (tt, s', evs1 ++ evs2).
Proof.
  intros H Hacc.
  destruct (safeTransferFrom from to tokenId e s) as [[[[] s''] evs'']|msg]
    eqn:E.
  - apply safeTransferFrom_inv in E as (s1' & evs2' & H' & Hacc' & ->).
    rewrite H in H'. injection H' as <- ->.
    rewrite Hacc in Hacc'. by injection Hacc' as <- <-.
  - exfalso. revert H E. inv_M; congruence.
Qed.

Lemma step_revert s (o : context) c :
  reverts (exec c o s) → step s (mkTx o c) = s.
Proof. intros [msg H]. unfold step, tx_env. simpl. by rewrite H. Qed.

Lemma step_success s (o : context) c u s' evs :
  exec c o s = Ok (u, s', evs) → step s (mkTx o c) = s'.
Proof. intros H. unfold step, tx_env. simpl. by rewrite H. Qed.


(** * Recipients that call back *)

Lemma behaviour_nested_ind (P : behaviour → Prop) :
  (∀ calls outcome,
     Forall (λ cb, match cb with Callback _ _ b => P b end) calls →
     P (Behaviour calls outcome)) →
  ∀ b, P b.
Proof.
  intros IH. fix rec 1. intros [calls outcome]. apply IH.
  induction calls as [|[a c b'] l IHl]; constructor; [apply rec|exact IHl].
Qed.

Lemma received_nil outcome now s :
  received (Behaviour [] outcome) now s = answer outcome s.
Proof. reflexivity. Qed.

Lemma received_cons a c b l outcome now s :
  received (Behaviour (Callback a c b :: l) outcome) now s =
  match exec c (mkEnv a now (received b now)) s with
  | Ok (_, s1, evs1) =>
      match received (Behaviour l outcome) now s1 with
      | Ok (magic, s2, evs2) => Ok (magic, s2, evs1 ++ evs2)
      | Revert reason => Revert reason
      end
  | Revert _ => received (Behaviour l outcome) now s
  end.
Proof. reflexivity. Qed.

Lemma callbacks_cons a c b l outcome :
  callbacks (Behaviour (Callback a c b :: l) outcome) =
  c :: callbacks b ++ callbacks (Behaviour l outcome).
Proof. reflexivity. Qed.

(** A recipient that makes no call leaves the storage alone. *)
Lemma received_quiet a outcome now :
  quiet (mkEnv a now (received (Behaviour [] outcome) now)).
Proof.
  intros s magic s' evs. simpl. destruct outcome; simpl; [|done].
  by intros [= _ <- <-].
Qed.

Section summaries.
  Variable Q : call → Prop.
  Variable R : state → list event → state → Prop.

  Hypothesis Q_safe :
    ∀ from to tokenId,
      Q (SafeTransferFrom from to tokenId) → Q (TransferFrom from to tokenId).
  Hypothesis R_refl : ∀ s, R s [] s.
  Hypothesis R_trans :
    ∀ s1 evs1 s2 evs2 s3,
      R s1 evs1 s2 → R s2 evs2 s3 → R s1 (evs1 ++ evs2) s3.
  Hypothesis R_hookless :
    ∀ e c s u s' evs,
      hookless c = true → Q c → exec c e s = Ok (u, s', evs) → R s evs s'.
  Hypothesis R_register :
    ∀ e s owner loc co ar va pt dh uri pid s' evs,
      hook_respects R e →
      registerProperty owner loc co ar va pt dh uri e s = Ok (pid, s', evs) →
      R s evs s'.

Lemma exec_summary e c s u s' evs :
  Q c → hook_respects R e → exec c e s = Ok (u, s', evs) → R s evs s'.
Proof.
  intros Hq Hhook H. destruct (hookless c) eqn:Hc.
  - by eapply R_hookless.
  - destruct c; try discriminate.
    + apply exec_register_inv in H. by eapply R_register.
    + simpl in H.
      apply safeTransferFrom_inv in H as (s1 & evs2 & H1 & H2 & ->).
      change (Transfer from to tokenId :: evs2)
        with ([Transfer from to tokenId] ++ evs2).
      eapply R_trans; [|by eapply Hhook].
      apply (R_hookless e (TransferFrom from to tokenId) s tt); auto.
Qed.

Lemma received_summary b now s magic s' evs :
  Forall Q (callbacks b) →
  received b now s = Ok (magic, s', evs) → R s evs s'.
Proof.
  revert s magic s' evs.
  induction b as [calls outcome IH] using behaviour_nested_ind.
  induction calls as [|[a c b] l IHl]; intros s magic s' evs Hq.
  - rewrite received_nil. destruct outcome; simpl; [|done].
    intros [= _ <- <-]. apply R_refl.
  - rewrite callbacks_cons in Hq.
    apply Forall_cons in Hq as [Hc Hq]. apply Forall_app in Hq as [Hb Hl].
    apply Forall_cons in IH as [IHb IH].
    rewrite received_cons.
    destruct (exec c _ s) as [[[[] s1] evs1]|msg] eqn:E.
    + destruct (received (Behaviour l outcome) now s1)
        as [[[magic' s2] evs2]|] eqn:E'; [|done].
      intros [= <- <- <-].
      eapply R_trans; [|by eapply IHl].
      eapply exec_summary; [done| |exact E].
      intros ? ? ? ? ?. by eapply IHb.
    + by apply IHl.
Qed.

Lemma step_summary s t :
  Forall Q (calls_of t) → R s (events_of s t) (step s t).
Proof.
  intros Hq. apply Forall_cons in Hq as [Hc Hq].
  unfold events_of, step.
  destruct (exec (tx_call t) (tx_env t) s) as [[[[] s'] evs]|msg] eqn:E;
    [|apply R_refl].
  eapply exec_summary; [done| |exact E].
  intros s0 magic s0' evs0 H0.
  eapply received_summary; [exact Hq|exact H0].
Qed.

Lemma run_summary s txs :
  Forall (λ t, Forall Q (calls_of t)) txs → R s (log s txs) (run s txs).
Proof.
  intros Hq. revert s.
  induction Hq as [|t txs Ht Hq IH]; intros s; [apply R_refl|].
  simpl. eapply R_trans; [by apply step_summary|apply IH].
Qed.

End summaries.

(** * What every call keeps *)

Lemma exec_frame e c s u s' evs :
  exec c e s = Ok (u, s', evs) → hookless c = true →
  same_registry s s'.
Proof.
  intros H Hc. unfold same_registry.
  destruct c; try discriminate; revert H; simpl; inv_M; bool_norm;
    repeat split; try done; intros i; unfold_get; simpl;
    try (destruct (decide (i = propertyId)) as [->|]);
    try (destruct (decide (i = tokenId)) as [->|]);
    simplify_map_eq; bool_norm; try done.
  all: match goal with
       | |- negb (?y =? 0) = negb (?x =? 0) =>
           destruct (Z.eqb_spec x 0); [congruence|];
           destruct (Z.eqb_spec y 0); [congruence|]; reflexivity
       end.
Qed.

(** What a call that is neither a registration, a safe transfer nor one
    of the four attribute updates does to the attribute structs:
    nothing. *)
Lemma exec_other_properties e c s u s' evs :
  exec c e s = Ok (u, s', evs) →
  match c with
  | RegisterProperty _ _ _ _ _ _ _ _ | TransferProperty _ _ _
  | VerifyProperty _ _ | ChangePropertyStatus _ _
  | UpdatePropertyValue _ _ | SafeTransferFrom _ _ _ => True
  | _ => properties s' = properties s
  end.
Proof.
  intros H. destruct c; try done; revert H; simpl; inv_M.
Qed.

(** Only [registerProperty] emits [PropertyRegistered]. *)
Lemma exec_hookless_log e c s u s' evs :
  exec c e s = Ok (u, s', evs) → hookless c = true →
  Forall (λ ev, is_registered ev = false) evs.
Proof.
  intros H Hc.
  destruct c; try discriminate; revert H; simpl; inv_M;
    repeat constructor.
Qed.

Lemma minted_exists s owner i :
  owner ≠ 0 →
  _exists (minted s owner) i = true ↔ i = next_id s ∨ _exists s i = true.
Proof.
  intros Ho. rewrite !exists_ownerOf. unfold minted, _ownerOf. simpl.
  destruct (decide (i = next_id s)) as [->|Hne]; simplify_map_eq; tauto.
Qed.

Lemma minted_property_at s owner i :
  property_at (minted s owner) i = property_at s i.
Proof. reflexivity. Qed.

(** ** Tokens and deeds are permanent *)

Lemma keeps_deeds_refl s : keeps_deeds s s.
Proof. intros i Hi. by repeat split. Qed.

Lemma keeps_deeds_trans s1 s2 s3 :
  keeps_deeds s1 s2 → keeps_deeds s2 s3 → keeps_deeds s1 s3.
Proof.
  intros H12 H23 i Hi.
  destruct (H12 i Hi) as [Hi2 Hd]. destruct (H23 i Hi2) as [Hi3 Hd'].
  split; [done|]. unfold same_deed in *.
  destruct Hd as (? & ? & ? & ? & ? & ? & ? & ?).
  destruct Hd' as (? & ? & ? & ? & ? & ? & ? & ?).
  repeat split; congruence.
Qed.

Lemma exec_hookless_keeps_deeds e c s u s' evs :
  hookless c = true → exec c e s = Ok (u, s', evs) → keeps_deeds s s'.
Proof.
  intros Hc H i Hi. destruct u.
  pose proof (exec_frame _ _ _ _ _ _ H Hc) as (_ & _ & _ & Hx).
  split; [by rewrite Hx|].
  pose proof (exec_other_properties _ _ _ _ _ _ H) as Hother.
  destruct c; try discriminate; simpl in H;
    try (unfold property_at; rewrite Hother; by repeat split).
  - apply transferProperty_inv in H
      as (_ & _ & _ & Hp & Hothers & _).
    destruct (decide (i = propertyId)) as [->|Hne].
    + rewrite Hp. by repeat split.
    + unfold property_at. rewrite Hothers by done. by repeat split.
  - apply verifyProperty_inv in H as [_ [= -> _]].
    unfold property_at. simpl.
    destruct (decide (i = propertyId)) as [->|Hne]; simplify_map_eq;
      by repeat split.
  - apply changePropertyStatus_inv in H as [_ [= -> _]].
    unfold property_at. simpl.
    destruct (decide (i = propertyId)) as [->|Hne]; simplify_map_eq;
      by repeat split.
  - apply updatePropertyValue_inv in H as [_ [= -> _]].
    unfold property_at. simpl.
    destruct (decide (i = propertyId)) as [->|Hne]; simplify_map_eq;
      by repeat split.
Qed.

(** What [registerProperty] writes after the recipient has answered
    touches the new id only. *)
Lemma registerProperty_after_hook e s owner loc co ar va pt dh uri pid s'
    evs :
  registerProperty owner loc co ar va pt dh uri e s = Ok (pid, s', evs) →
  owner ≠ 0 ∧ _exists s pid = false ∧ pid = next_id s ∧
  ∃ s2 evs2,
    onERC721Received e (minted s owner) = Ok (true, s2, evs2) ∧
    evs = Transfer 0 owner pid :: evs2 ++
          [MetadataUpdate pid;
           PropertyRegistered pid owner loc va (msg_sender e)] ∧
    (∀ i, _exists s' i = _exists s2 i) ∧
    (∀ i, _ownerOf s' i = _ownerOf s2 i) ∧
    (∀ i, i ≠ pid → property_at s' i = property_at s2 i) ∧
    property_at s' pid =
      mkProperty pid loc co ar va pt ACTIVE (block_timestamp e)
        (block_timestamp e) dh (msg_sender e) false ∧
    0 < Z.of_nat (String.length loc) ∧ 0 < ar.
Proof.
  intros H.
  apply registerProperty_inv in H
    as ((_ & _ & Ho & Hl & Ha & _ & Hx & _) & -> & s2 & evs2 & Hacc & _ & _
        & Hown & _ & _ & _ & Hprop & _ & _ & _ & _ & ->).
  split; [done|]. split; [done|]. split; [done|].
  exists s2, evs2. split; [done|]. split; [done|].
  unfold _exists, _ownerOf, property_at. rewrite Hown, Hprop.
  repeat split; try done; intros; by simplify_map_eq.
Qed.

Lemma registerProperty_keeps_deeds e s owner loc co ar va pt dh uri pid s'
    evs :
  hook_respects (λ s _ s', keeps_deeds s s') e →
  registerProperty owner loc co ar va pt dh uri e s = Ok (pid, s', evs) →
  keeps_deeds s s'.
Proof.
  intros Hhook H.
  apply registerProperty_after_hook in H
    as (Ho & Hx & -> & s2 & evs2 & Hacc & _ & Hex & _ & Hprop & _).
  apply Hhook in Hacc. intros i Hi.
  assert (i ≠ next_id s) as Hne by (intros ->; congruence).
  destruct (Hacc i) as [Hi2 Hd]; [apply minted_exists; auto|].
  rewrite Hex, Hprop by done. by rewrite minted_property_at in Hd.
Qed.

Lemma run_keeps_deeds s txs : keeps_deeds s (run s txs).
Proof.
  apply (run_summary (λ _, True) (λ s _ s', keeps_deeds s s')).
  - done.
  - intros. apply keeps_deeds_refl.
  - intros. by eapply keeps_deeds_trans.
  - intros. by eapply exec_hookless_keeps_deeds.
  - intros. by eapply registerProperty_keeps_deeds.
  - apply Forall_forall. intros t _. by apply Forall_forall.
Qed.

(** ** Structs of tokens in use are in order *)

Lemma grows_well_formed_refl s : grows_well_formed s s.
Proof. intros i Hi H. by apply H. Qed.

Lemma grows_well_formed_trans s1 s2 s3 :
  grows_well_formed s1 s2 → grows_well_formed s2 s3 →
  grows_well_formed s1 s3.
Proof.
  intros H12 H23 i Hi3 H1. apply H23; [done|]. intros Hi2. by apply H12.
Qed.

Lemma exec_hookless_grows_well_formed e c s u s' evs :
  hookless c = true → exec c e s = Ok (u, s', evs) →
  grows_well_formed s s'.
Proof.
  intros Hc H i Hi Hwf.
  pose proof (exec_frame _ _ _ _ _ _ H Hc) as (_ & _ & _ & Hx).
  rewrite Hx in Hi.
  destruct (exec_hookless_keeps_deeds _ _ _ _ _ _ Hc H i Hi)
    as (_ & Hid & Hloc & _ & Har & _).
  unfold well_formed_at. rewrite Hid, Hloc, Har. by apply Hwf.
Qed.

Lemma registerProperty_grows_well_formed e s owner loc co ar va pt dh uri
    pid s' evs :
  hook_respects (λ s _ s', grows_well_formed s s') e →
  registerProperty owner loc co ar va pt dh uri e s = Ok (pid, s', evs) →
  grows_well_formed s s'.
Proof.
  intros Hhook H.
  apply registerProperty_after_hook in H
    as (Ho & Hx & -> & s2 & evs2 & Hacc & _ & Hex & _ & Hprop & Hnew & Hl
        & Ha).
  apply Hhook in Hacc. intros i Hi Hwf.
  destruct (decide (i = next_id s)) as [->|Hne].
  - unfold well_formed_at. by rewrite Hnew.
  - rewrite Hex in Hi. unfold well_formed_at. rewrite Hprop by done.
    apply Hacc; [done|]. intros [?|Hi1]%minted_exists; [done| |done].
    unfold well_formed_at. rewrite minted_property_at. by apply Hwf.
Qed.

Lemma run_grows_well_formed s txs : grows_well_formed s (run s txs).
Proof.
  apply (run_summary (λ _, True) (λ s _ s', grows_well_formed s s')).
  - done.
  - intros. apply grows_well_formed_refl.
  - intros. by eapply grows_well_formed_trans.
  - intros. by eapply exec_hookless_grows_well_formed.
  - intros. by eapply registerProperty_grows_well_formed.
  - apply Forall_forall. intros t _. by apply Forall_forall.
Qed.

(** * The id counter and the location index along the log *)

Lemma registrations_app evs1 evs2 :
  registrations (evs1 ++ evs2)
    = (registrations evs1 + registrations evs2)%nat.
Proof.
  induction evs1 as [|ev evs1 IH]; [done|]. simpl. rewrite IH. lia.
Qed.

Lemma registered_at_app loc evs1 evs2 :
  registered_at loc (evs1 ++ evs2)
    = registered_at loc evs1 || registered_at loc evs2.
Proof. apply existsb_app. Qed.

Lemma registrations_none evs :
  Forall (λ ev, is_registered ev = false) evs →
  registrations evs = 0%nat ∧ ∀ loc, registered_at loc evs = false.
Proof.
  induction 1 as [|ev evs Hev _ [IH1 IH2]]; [done|]. simpl.
  rewrite Hev, IH1. split; [done|]. intros loc. rewrite IH2.
  by destruct ev.
Qed.

Lemma next_id_no_wrap s :
  0 ≤ _propertyIdCounter s < MAX_UINT256 →
  next_id s = _propertyIdCounter s + 1.
Proof.
  unfold next_id, wrap, MAX_UINT256. intros H. apply Z.mod_small. lia.
Qed.

Lemma counts_refl s : counts s [] s.
Proof.
  intros H0 Hb. simpl. rewrite Z.add_0_r.
  repeat split; try tauto; try (intros [?|?]; [done|lia]); auto.
Qed.

Lemma counts_trans s1 evs1 s2 evs2 s3 :
  counts s1 evs1 s2 → counts s2 evs2 s3 → counts s1 (evs1 ++ evs2) s3.
Proof.
  intros H12 H23 H0 Hb. rewrite registrations_app, Nat2Z.inj_add in *.
  destruct H12 as (Hc2 & Hex2 & Hz2 & Hidx2 & Hloc2); [done|lia|].
  destruct H23 as (Hc3 & Hex3 & Hz3 & Hidx3 & Hloc3); [lia|lia|].
  split; [lia|]. split; [|split; [|split]].
  - intros i. rewrite Hex3, Hex2. split.
    + intros [[?|?]|?]; [by left|right; lia|right; lia].
    + intros [?|?]; [by left; left|].
      destruct (decide (i ≤ _propertyIdCounter s2));
        [left; right; lia|right; lia].
  - intros loc. rewrite Hz3, Hz2, registered_at_app, orb_false_iff. tauto.
  - intros loc. destruct (Hidx3 loc) as [Heq | [Hr Hl]].
    + rewrite Heq. destruct (Hidx2 loc) as [Heq' | [Hr Hl]]; [by left|].
      right. split; [lia|]. rewrite Hloc3; [done|]. apply Hex2. lia.
    + right. split; [lia|done].
  - intros i Hi. rewrite Hloc3; [by apply Hloc2|]. apply Hex2. by left.
Qed.

Lemma exec_hookless_counts e c s u s' evs :
  hookless c = true → exec c e s = Ok (u, s', evs) → counts s evs s'.
Proof.
  intros Hc H H0 Hb.
  pose proof (exec_frame _ _ _ _ _ _ H Hc) as (Hcnt & Hidx & Hloc & Hx).
  pose proof (exec_hookless_log _ _ _ _ _ _ H Hc) as Hlog.
  apply registrations_none in Hlog as [-> Hnone].
  unfold locationToPropertyId. rewrite Hcnt, Hidx. simpl.
  rewrite Z.add_0_r. split; [done|]. split; [|split; [|split]].
  - intros i. rewrite Hx. split; [tauto|]. intros [?|?]; [done|lia].
  - intros loc. rewrite Hnone. tauto.
  - intros loc. by left.
  - intros i _. apply Hloc.
Qed.

Lemma registerProperty_index e s owner loc co ar va pt dh uri pid s' evs s2
    evs2 :
  registerProperty owner loc co ar va pt dh uri e s = Ok (pid, s', evs) →
  onERC721Received e (minted s owner) = Ok (true, s2, evs2) →
  locationToPropertyId s loc = 0 ∧
  _propertyIdCounter s' = _propertyIdCounter s2 ∧
  _locationToPropertyId s' = <[loc := pid]> (_locationToPropertyId s2) ∧
  _ownerProperties s' =
    <[owner := ownerProperties s2 owner ++ [pid]]> (_ownerProperties s2) ∧
  _paused s' = _paused s2 ∧ _roles s' = _roles s2.
Proof.
  intros H Hacc.
  apply registerProperty_inv in H
    as ((_ & _ & _ & _ & _ & Hm & _) & _ & s2' & evs2' & Hacc' & _ & Hc & _
        & _ & _ & _ & _ & Hloc & Hidx & Hr & Hp & _).
  rewrite Hacc in Hacc'. by injection Hacc' as <- <-.
Qed.

Lemma registerProperty_counts e s owner loc co ar va pt dh uri pid s' evs :
  hook_respects counts e →
  registerProperty owner loc co ar va pt dh uri e s = Ok (pid, s', evs) →
  counts s evs s'.
Proof.
  intros Hhook H H0 Hb.
  pose proof (registerProperty_after_hook _ _ _ _ _ _ _ _ _ _ _ _ _ H)
    as (Ho & Hx & Hpid & s2 & evs2 & Hacc & -> & Hex & _ & Hprop & Hnew & _).
  subst pid.
  destruct (registerProperty_index _ _ _ _ _ _ _ _ _ _ _ _ _ _ _ H Hacc)
    as (Hm & Hc & Hloc & _).
  assert (registrations
            (Transfer 0 owner (next_id s) :: evs2 ++
             [MetadataUpdate (next_id s);
              PropertyRegistered (next_id s) owner loc va (msg_sender e)])
          = S (registrations evs2)) as Hregs.
  { simpl. rewrite registrations_app. simpl. lia. }
  assert (∀ l, registered_at l
                 (Transfer 0 owner (next_id s) :: evs2 ++
                  [MetadataUpdate (next_id s);
                   PropertyRegistered (next_id s) owner loc va
                     (msg_sender e)])
               = registered_at l evs2 || bool_decide (loc = l)) as Hat.
  { intros l. unfold registered_at. simpl. rewrite existsb_app. simpl.
    by rewrite orb_false_r. }
  rewrite Hregs in *. rewrite Nat2Z.inj_succ in *.
  assert (next_id s = _propertyIdCounter s + 1) as Hid
    by (apply next_id_no_wrap; lia).
  assert (_propertyIdCounter (minted s owner) = _propertyIdCounter s + 1)
    as Hc1 by (unfold minted; simpl; exact Hid).
  apply Hhook in Hacc.
  destruct Hacc as (Hc2 & Hex2 & Hz2 & Hidx2 & Hloc2); [lia|lia|].
  rewrite Hc1 in *.
  assert (∀ l, locationToPropertyId s' l =
               if decide (l = loc) then next_id s
               else locationToPropertyId s2 l) as Hlocs.
  { intros l. unfold locationToPropertyId. rewrite Hloc.
    destruct (decide (l = loc)) as [->|]; by simplify_map_eq. }
  assert (∀ l, locationToPropertyId (minted s owner) l
               = locationToPropertyId s l) as Hsame by done.
  rewrite Hc. split; [lia|]. split; [|split; [|split]].
  - intros i. rewrite Hex, Hex2, minted_exists by done. split.
    + intros [[->|?]|?]; [right; lia|by left|right; lia].
    + intros [?|?]; [by left; right|].
      destruct (decide (i = next_id s)); [by left; left|right; lia].
  - intros l. rewrite Hlocs, Hat, orb_false_iff.
    destruct (decide (l = loc)) as [->|Hne].
    + rewrite bool_decide_eq_true_2 by done. split; [lia|].
      intros [_ [_ ?]]. discriminate.
    + rewrite bool_decide_eq_false_2 by done. rewrite Hz2, Hsame. tauto.
  - intros l. rewrite Hlocs. destruct (decide (l = loc)) as [->|Hne].
    + right. split; [lia|]. by rewrite Hnew.
    + destruct (Hidx2 l) as [Heq | [Hr Hl]]; [left; by rewrite Heq|].
      right. split; [lia|]. rewrite Hprop by lia. done.
  - intros i Hi. assert (i ≠ next_id s) as Hne by (intros ->; congruence).
    rewrite Hprop by done. rewrite Hloc2; [done|].
    apply minted_exists; auto.
Qed.

Lemma run_counts s txs : counts s (log s txs) (run s txs).
Proof.
  apply (run_summary (λ _, True) counts).
  - done.
  - apply counts_refl.
  - apply counts_trans.
  - intros. by eapply exec_hookless_counts.
  - intros. by eapply registerProperty_counts.
  - apply Forall_forall. intros t _. by apply Forall_forall.
Qed.

(** ** Status and verification flag *)

Lemma exec_hookless_all_active e c s u s' evs :
  hookless c = true → is_status_change c = false →
  exec c e s = Ok (u, s', evs) → all_active s → all_active s'.
Proof.
  intros Hh Hc E Hall i. destruct u.
  pose proof (exec_other_properties _ _ _ _ _ _ E) as Hother.
  destruct c; try discriminate; simpl in E;
    try (unfold property_at; rewrite Hother; by apply Hall).
  - apply transferProperty_inv in E as (_ & _ & _ & Hp & Hothers & _).
    destruct (decide (i = propertyId)) as [->|Hne].
    + by rewrite Hp.
    + unfold property_at. rewrite Hothers by done. by apply Hall.
  - apply verifyProperty_inv in E as [_ [= -> _]].
    unfold property_at. simpl.
    destruct (decide (i = propertyId)) as [->|Hne]; simplify_map_eq;
      by apply Hall.
  - apply updatePropertyValue_inv in E as [_ [= -> _]].
    unfold property_at. simpl.
    destruct (decide (i = propertyId)) as [->|Hne]; simplify_map_eq;
      by apply Hall.
Qed.

Lemma exec_hookless_all_unverified e c s u s' evs :
  hookless c = true → is_verification c = false →
  exec c e s = Ok (u, s', evs) → all_unverified s → all_unverified s'.
Proof.
  intros Hh Hc E Hall i. destruct u.
  pose proof (exec_other_properties _ _ _ _ _ _ E) as Hother.
  destruct c; try discriminate; simpl in E;
    try (unfold property_at; rewrite Hother; by apply Hall).
  - apply transferProperty_inv in E as (_ & _ & _ & Hp & Hothers & _).
    destruct (decide (i = propertyId)) as [->|Hne].
    + rewrite Hp. simpl. by apply Hall.
    + unfold property_at. rewrite Hothers by done. by apply Hall.
  - apply changePropertyStatus_inv in E as [_ [= -> _]].
    unfold property_at. simpl.
    destruct (decide (i = propertyId)) as [->|Hne]; simplify_map_eq;
      by apply Hall.
  - apply updatePropertyValue_inv in E as [_ [= -> _]].
    unfold property_at. simpl.
    destruct (decide (i = propertyId)) as [->|Hne]; simplify_map_eq;
      by apply Hall.
Qed.

Lemma registerProperty_all_active e s owner loc co ar va pt dh uri pid s'
    evs :
  hook_respects (λ s _ s', all_active s → all_active s') e →
  registerProperty owner loc co ar va pt dh uri e s = Ok (pid, s', evs) →
  all_active s → all_active s'.
Proof.
  intros Hhook H Hall i.
  apply registerProperty_after_hook in H
    as (_ & _ & _ & s2 & evs2 & Hacc & _ & _ & _ & Hprop & Hnew & _).
  apply Hhook in Hacc.
  destruct (decide (i = pid)) as [->|Hne]; [by rewrite Hnew|].
  rewrite Hprop by done. by apply Hacc.
Qed.

Lemma registerProperty_all_unverified e s owner loc co ar va pt dh uri pid
    s' evs :
  hook_respects (λ s _ s', all_unverified s → all_unverified s') e →
  registerProperty owner loc co ar va pt dh uri e s = Ok (pid, s', evs) →
  all_unverified s → all_unverified s'.
Proof.
  intros Hhook H Hall i.
  apply registerProperty_after_hook in H
    as (_ & _ & _ & s2 & evs2 & Hacc & _ & _ & _ & Hprop & Hnew & _).
  apply Hhook in Hacc.
  destruct (decide (i = pid)) as [->|Hne]; [by rewrite Hnew|].
  rewrite Hprop by done. by apply Hacc.
Qed.

Lemma run_all_active s txs :
  Forall (λ t, Forall (λ c, is_status_change c = false) (calls_of t)) txs →
  all_active s → all_active (run s txs).
Proof.
  apply (run_summary (λ c, is_status_change c = false)
           (λ s _ s', all_active s → all_active s')).
  - done.
  - done.
  - intros s1 _ s2 _ s3 H12 H23 H1. by apply H23, H12.
  - intros. by eapply exec_hookless_all_active.
  - intros. by eapply registerProperty_all_active.
Qed.

Lemma run_all_unverified s txs :
  Forall (λ t, Forall (λ c, is_verification c = false) (calls_of t)) txs →
  all_unverified s → all_unverified (run s txs).
Proof.
  apply (run_summary (λ c, is_verification c = false)
           (λ s _ s', all_unverified s → all_unverified s')).
  - done.
  - done.
  - intros s1 _ s2 _ s3 H12 H23 H1. by apply H23, H12.
  - intros. by eapply exec_hookless_all_unverified.
  - intros. by eapply registerProperty_all_unverified.
Qed.

(** * Recipients that make no call *)

Lemma tx_quiet t : calls_back t = false → quiet (tx_env t).
Proof.
  unfold calls_back, tx_env, env_of.
  destruct (ctx_recipient (tx_context t)) as [[|[a c b] l] outcome];
    [|done].
  intros _. apply received_quiet.
Qed.

(** With such a recipient, a call that is not a registration leaves the
    counter, the location index and the locations alone. *)
Lemma exec_quiet_frame e c s u s' evs :
  quiet e → exec c e s = Ok (u, s', evs) → is_registration c = false →
  same_registry s s'.
Proof.
  intros Hq H Hc. destruct (hookless c) eqn:Hh.
  - by eapply exec_frame.
  - destruct c; try discriminate. simpl in H.
    apply safeTransferFrom_inv in H as (s1 & evs2 & H1 & H2 & ->).
    apply Hq in H2 as [-> _].
    by apply (exec_frame e (TransferFrom from to tokenId) s tt s1
                [Transfer from to tokenId]).
Qed.

(** * The registry invariant, for recipients that make no call *)

Lemma deploy_registry_inv d : registry_inv (deploy d).
Proof.
  unfold registry_inv, MAX_UINT256.
  assert (_propertyIdCounter (deploy d) = 0 ∧ _owners (deploy d) = ∅ ∧
          _locationToPropertyId (deploy d) = ∅) as (Hc & Ho & Hl).
  { unfold deploy.
    destruct (constructor _ _) as [[[[] s] evs]|msg] eqn:E; [|done].
    revert E. unfold constructor. inv_M. }
  rewrite Hc. unfold _exists, _ownerOf, locationToPropertyId.
  rewrite Ho, Hl. repeat split; simplify_map_eq; try done; try lia.
Qed.

Lemma same_registry_inv s s' :
  same_registry s s' → registry_inv s → registry_inv s'.
Proof.
  intros (Hc & Hl & Hp & Hx) (Hr & He & Hf & Hb).
  unfold registry_inv, locationToPropertyId in *.
  rewrite Hc, Hl. split; [lia|]. split; [|split].
  - intros i. rewrite Hx. apply He.
  - intros i Hi. rewrite Hp. by apply Hf.
  - intros loc Hloc. rewrite Hp. by apply Hb.
Qed.

Lemma registerProperty_registry_inv e s owner loc co ar va pt dh uri pid s' evs :
  quiet e →
  registerProperty owner loc co ar va pt dh uri e s = Ok (pid, s', evs) →
  registry_inv s → _propertyIdCounter s < MAX_UINT256 →
  registry_inv s' ∧ pid = _propertyIdCounter s + 1 ∧
  _propertyIdCounter s' = _propertyIdCounter s + 1.
Proof.
  intros Hq H (Hr & He & Hf & Hb) Hlt.
  apply registerProperty_quiet in H
    as ((Hp & Hrole & Ho & Hl & Ha & Hm & Hx & Hacc) & Hpid & Hc & Hown
        & Hprop & Hloc & _); [|done].
  rewrite next_id_no_wrap in Hpid by lia. subst pid.
  split; [|by rewrite Hc]. unfold registry_inv.
  assert (∀ i, _exists s' i = true ↔ i = _propertyIdCounter s + 1 ∨
                                      _exists s i = true) as Hex.
  { intros i. rewrite !exists_ownerOf. unfold _ownerOf. rewrite Hown.
    destruct (decide (i = _propertyIdCounter s + 1)) as [->|];
      simplify_map_eq; intuition. }
  assert (∀ i, i ≠ _propertyIdCounter s + 1 →
               property_at s' i = property_at s i) as Hother.
  { intros i Hi. unfold property_at. rewrite Hprop. by simplify_map_eq. }
  assert (location (property_at s' (_propertyIdCounter s + 1)) = loc)
    as Hnew.
  { unfold property_at. rewrite Hprop. by simplify_map_eq. }
  assert (∀ l, locationToPropertyId s' l =
               if decide (l = loc) then _propertyIdCounter s + 1
               else locationToPropertyId s l) as Hlocs.
  { intros l. unfold locationToPropertyId. rewrite Hloc.
    destruct (decide (l = loc)) as [->|]; by simplify_map_eq. }
  rewrite Hc. split; [lia|]. split; [|split].
  - intros i. rewrite Hex, He. lia.
  - intros i Hi. destruct (decide (i = _propertyIdCounter s + 1)) as [->|Hne].
    + rewrite Hnew, Hlocs. by rewrite decide_True.
    + rewrite Hother by done. rewrite Hlocs.
      assert (1 ≤ i ≤ _propertyIdCounter s) as Hi' by lia.
      specialize (Hf i Hi').
      destruct (decide (location (property_at s i) = loc)) as [Heq|];
        [|done].
      rewrite Heq in Hf. lia.
  - intros l. rewrite Hlocs.
    destruct (decide (l = loc)) as [->|]; [intros _; split; [lia|done]|].
    intros Hne. pose proof (Hb _ Hne) as [Hrange Hl0].
    split; [lia|]. rewrite Hother by lia. done.
Qed.

Lemma step_registry_inv s t :
  calls_back t = false →
  registry_inv s → _propertyIdCounter s < MAX_UINT256 →
  registry_inv (step s t) ∧
  _propertyIdCounter s ≤ _propertyIdCounter (step s t)
    ≤ _propertyIdCounter s + 1.
Proof.
  intros Hq%tx_quiet Hinv Hlt. unfold step.
  destruct (exec (tx_call t) (tx_env t) s) as [[[[] s'] evs]|msg] eqn:E;
    [|split; [done|lia]].
  destruct (is_registration (tx_call t)) eqn:Hreg.
  - destruct (tx_call t); try discriminate.
    apply exec_register_inv in E.
    eapply registerProperty_registry_inv in E as (? & _ & ?); [|done..].
    split; [done|lia].
  - pose proof (exec_quiet_frame _ _ _ _ _ _ Hq E Hreg) as Hsame.
    split; [by eapply same_registry_inv|].
    destruct Hsame as [-> _]. lia.
Qed.

Lemma run_cons s t txs : run s (t :: txs) = run (step s t) txs.
Proof. reflexivity. Qed.

Lemma run_registry_inv s txs :
  Forall (λ t, calls_back t = false) txs →
  registry_inv s →
  _propertyIdCounter s + Z.of_nat (length txs) ≤ MAX_UINT256 →
  registry_inv (run s txs).
Proof.
  intros Hq. revert s.
  induction Hq as [|t txs Ht Hq IH]; intros s Hinv Hlen; [done|].
  rewrite run_cons. cbn [length] in Hlen.
  destruct (step_registry_inv s t Ht Hinv) as [Hinv' Hc]; [lia|].
  apply IH; [done|lia].
Qed.

(** The message of the uniqueness check, when every earlier check of
    [registerProperty] passes. *)
Lemma registerProperty_duplicate e s owner loc co ar va pt dh uri :
  locationToPropertyId s loc ≠ 0 →
  reverts (registerProperty owner loc co ar va pt dh uri e s) ∧
  (hasRole s NOTARY_ROLE (msg_sender e) = true → _paused s = false →
   owner ≠ 0 → 0 < Z.of_nat (String.length loc) → 0 < ar →
   registerProperty owner loc co ar va pt dh uri e s
     = Revert "Property already exists at this location").
Proof.
  intros Hdup. split.
  - apply reverts_not_succeeds. rewrite registerProperty_succeeds_iff.
    intros [_ (_ & _ & _ & _ & Hm & _)]. congruence.
  - intros Hr Hp Ho Hl Ha. unfold_M. rewrite Hr, Hp. simpl.
    destruct (Z.eqb_spec owner 0); [done|]. simpl.
    destruct (Z.ltb_spec 0 (Z.of_nat (String.length loc))); [|lia]. simpl.
    destruct (Z.ltb_spec 0 ar); [|lia]. simpl.
    by destruct (Z.eqb_spec (locationToPropertyId s loc) 0).
Qed.

(** * The per-owner lists *)

Lemma last_snoc (l : list Z) (z d : Z) : List.last (l ++ [z]) d = z.
Proof. apply last_last. Qed.

Lemma removeLoop_not_in rest i l x :
  x ∉ rest → _removeLoop rest i l x = l.
Proof.
  revert i. induction rest as [|y rest IH]; intros i Hx; simpl; [done|].
  apply not_elem_of_cons in Hx as [Hne Hx].
  destruct (Z.eqb_spec y x); [congruence|]. by apply IH.
Qed.

(** The loop takes out one occurrence of [x]: the first one found from
    index [length pre] on. *)
Lemma removeLoop_perm pre rest x :
  x ∈ rest →
  x :: _removeLoop rest (length pre) (pre ++ rest) x ≡ₚ pre ++ rest.
Proof.
  revert pre. induction rest as [|y rest IH]; intros pre Hx.
  - by apply elem_of_nil in Hx.
  - simpl. destruct (Z.eqb_spec y x) as [->|Hne].
    + destruct (decide (rest = [])) as [->|Hrest].
      * rewrite last_snoc.
        rewrite insert_app_r_alt by lia. rewrite Nat.sub_diag. simpl.
        rewrite removelast_last. by rewrite Permutation_cons_append.
      * destruct (exists_last Hrest) as (r & z & ->).
        replace (pre ++ x :: r ++ [z]) with ((pre ++ x :: r) ++ [z])
          by (by rewrite <- app_assoc).
        rewrite last_snoc.
        rewrite <- app_assoc. simpl.
        rewrite insert_app_r_alt by lia. rewrite Nat.sub_diag. simpl.
        replace (pre ++ z :: r ++ [z]) with ((pre ++ z :: r) ++ [z])
          by (by rewrite <- app_assoc).
        rewrite removelast_last.
        rewrite <- (Permutation_middle pre (r ++ [z]) x).
        apply Permutation_cons; [done|]. apply Permutation_app_head.
        apply Permutation_cons_append.
    + apply elem_of_cons in Hx as [->|Hx]; [done|].
      specialize (IH (pre ++ [y]) Hx).
      rewrite length_app in IH. simpl in IH.
      rewrite Nat.add_1_r in IH. rewrite <- app_assoc in IH. exact IH.
Qed.

Lemma removeLoop_NoDup l x :
  NoDup l → (x ∉ _removeLoop l 0 l x) ∧ NoDup (_removeLoop l 0 l x).
Proof.
  intros Hnd. destruct (decide (x ∈ l)) as [Hin|Hout].
  - pose proof (removeLoop_perm [] l x Hin) as Hperm. simpl in Hperm.
    rewrite <- Hperm in Hnd. by apply NoDup_cons in Hnd.
  - by rewrite removeLoop_not_in.
Qed.

(** When the current owner's list holds the id once, a successful
    [transferProperty] does all of what the specification says. *)
Lemma transferProperty_index_in_sync e s pid no nv s' evs :
  transferProperty pid no nv e s = Ok (tt, s', evs) →
  NoDup (getPropertiesByOwner s (_ownerOf s pid)) →
  ownerOf_view s' pid = Ok no ∧
  (pid ∉ getPropertiesByOwner s' (_ownerOf s pid)) ∧
  (pid ∈ getPropertiesByOwner s' no) ∧
  value (property_at s' pid) = nv ∧
  lastTransferDate (property_at s' pid) = block_timestamp e ∧
  status (property_at s' pid) = ACTIVE.
Proof.
  intros H Hnd. unfold getPropertiesByOwner in *.
  apply transferProperty_inv in H
    as ((_ & _ & _ & Hno & _ & _) & Hown & _ & Hprop & _ & Hnew & Hold & _).
  unfold ownerOf_view.
  assert (_exists s' pid = true) as -> by (apply exists_ownerOf; congruence).
  rewrite Hown, Hprop, Hnew, Hold.
  repeat split; try done.
  - by apply removeLoop_NoDup.
  - apply elem_of_app. right. by apply list_elem_of_singleton.
Qed.

(** Without the inherited transfers the per-owner lists stay in step
    with token ownership. *)
Lemma removeLoop_subset l x y :
  y ∈ _removeLoop l 0 l x → y ∈ l.
Proof.
  destruct (decide (x ∈ l)) as [Hin|Hout].
  - pose proof (removeLoop_perm [] l x Hin) as Hperm. simpl in Hperm.
    intros Hy. rewrite <- Hperm. by apply elem_of_cons; right.
  - by rewrite removeLoop_not_in.
Qed.

Lemma step_index_inv s t :
  calls_back t = false →
  is_direct_transfer (tx_call t) = false →
  index_inv s → index_inv (step s t).
Proof.
  intros Hq%tx_quiet Hdirect Hinv. unfold step.
  destruct (exec (tx_call t) (tx_env t) s) as [[[[] s'] evs]|msg] eqn:E;
    [|done].
  destruct (tx_call t) eqn:Hcall; try discriminate.
  - apply exec_register_inv in E.
    apply registerProperty_quiet in E
      as ((_ & _ & Ho & _ & _ & _ & Hx & _) & _ & _ & Hown & _ & _ & Hidx & _);
      [|done].
    apply not_exists_ownerOf in Hx.
    assert (∀ i, i ≠ next_id s → _ownerOf s' i = _ownerOf s i) as Hothers.
    { intros i Hi. unfold _ownerOf. rewrite Hown. by simplify_map_eq. }
    assert (_ownerOf s' (next_id s) = owner) as Hnew.
    { unfold _ownerOf. rewrite Hown. by simplify_map_eq. }
    assert (∀ a, next_id s ∉ ownerProperties s a) as Hfresh.
    { intros a Hi. apply (Hinv a) in Hi as [? ?]. congruence. }
    intros a. destruct (Hinv a) as [Hnd Hmem].
    assert (ownerProperties s' a =
            if decide (a = owner) then ownerProperties s a ++ [next_id s]
            else ownerProperties s a) as ->.
    { unfold ownerProperties. rewrite Hidx.
      destruct (decide (a = owner)) as [->|]; by simplify_map_eq. }
    destruct (decide (a = owner)) as [->|Hne].
    + split.
      * apply NoDup_app. split; [done|]. split; [|apply NoDup_singleton].
        intros i Hi ->%list_elem_of_singleton. by apply (Hfresh owner).
      * intros i [Hi | ->%list_elem_of_singleton]%elem_of_app; [|done].
        rewrite Hothers; [by apply Hmem|]. intros ->. by apply (Hfresh owner).
    + split; [done|]. intros i Hi.
      rewrite Hothers; [by apply Hmem|]. intros ->. by apply (Hfresh a).
  - simpl in E. apply transferProperty_inv in E
      as ((_ & _ & _ & Hno & _ & Hcur) & Hown & Hothers & _ & _ & Hnew & Hold
          & Hrest & _).
    intros a. destruct (Hinv a) as [Hnd Hmem].
    destruct (decide (a = newOwner)) as [->|Hne1].
    { rewrite Hnew. split.
      - apply NoDup_app. split; [done|]. split; [|apply NoDup_singleton].
        intros i Hi ->%list_elem_of_singleton. apply Hmem in Hi as [? ?].
        congruence.
      - intros i [Hi | ->%list_elem_of_singleton]%elem_of_app; [|done].
        destruct (decide (i = propertyId)) as [->|]; [done|].
        rewrite Hothers by done. by apply Hmem. }
    destruct (decide (a = _ownerOf s propertyId)) as [->|Hne2].
    { rewrite Hold.
      destruct (removeLoop_NoDup _ propertyId Hnd) as [Hout Hnd'].
      split; [done|]. intros i Hi.
      destruct (decide (i = propertyId)) as [->|]; [done|].
      rewrite Hothers by done. apply Hmem. by eapply removeLoop_subset. }
    rewrite Hrest by done. split; [done|]. intros i Hi.
    destruct (decide (i = propertyId)) as [->|].
    + apply Hmem in Hi as [? ?]. congruence.
    + rewrite Hothers by done. by apply Hmem.
  - simpl in E. apply verifyProperty_inv in E as [_ [= -> _]]. exact Hinv.
  - simpl in E. apply changePropertyStatus_inv in E as [_ [= -> _]]. exact Hinv.
  - simpl in E. apply updatePropertyValue_inv in E as [_ [= -> _]]. exact Hinv.
  - simpl in E. apply pause_spec in E as [_ [= -> _]]. exact Hinv.
  - simpl in E. apply unpause_spec in E as [_ [= -> _]]. exact Hinv.
  - revert E. simpl. inv_M.
  - revert E. simpl. inv_M.
  - revert E. simpl. inv_M.
  - revert E. simpl. inv_M.
  - revert E. simpl. inv_M.
Qed.

Lemma deploy_index_inv d : index_inv (deploy d).
Proof.
  assert (_ownerProperties (deploy d) = ∅) as H.
  { unfold deploy.
    destruct (constructor _ _) as [[[[] s] evs]|msg] eqn:E; [|done].
    revert E. unfold constructor. inv_M. }
  intros a. unfold ownerProperties. rewrite H. simplify_map_eq.
  split; [apply NoDup_nil_2|]. intros i Hi. by apply elem_of_nil in Hi.
Qed.

Lemma run_index_inv s txs :
  Forall (λ t, calls_back t = false ∧ is_direct_transfer (tx_call t) = false)
    txs →
  index_inv s → index_inv (run s txs).
Proof.
  revert s. induction txs as [|t txs IH]; intros s Hall Hinv; [done|].
  apply Forall_cons in Hall as [[Hq Ht] Hall]. rewrite run_cons.
  apply IH; [done|]. by apply step_index_inv.
Qed.

(** Along a history without inherited transfers and without calls from
    recipients, a successful [transferProperty] takes the id out of the
    previous owner's list. *)
Lemma transferProperty_without_direct_transfers d txs e pid no nv s' evs :
  Forall (λ t, calls_back t = false ∧ is_direct_transfer (tx_call t) = false)
    txs →
  let s := run (deploy d) txs in
  transferProperty pid no nv e s = Ok (tt, s', evs) →
  ownerOf_view s' pid = Ok no ∧
  (pid ∉ getPropertiesByOwner s' (_ownerOf s pid)) ∧
  (pid ∈ getPropertiesByOwner s' no) ∧
  value (property_at s' pid) = nv ∧
  lastTransferDate (property_at s' pid) = block_timestamp e ∧
  status (property_at s' pid) = ACTIVE.
Proof.
  intros Hall s H. eapply transferProperty_index_in_sync; [done|].
  apply (run_index_inv (deploy d) txs Hall (deploy_index_inv d)).
Qed.

(** * The response interceptor *)

Lemma response_onRejected_401 error b :
  response_status <$> error_response error = Some 401 →
  response_onRejected error b =
    (set_window_location_href "/" (removeItem "auth_token" b),
     Rejected error).
Proof.
  intros H. unfold response_onRejected. by rewrite bool_decide_eq_true_2.
Qed.

Lemma response_onRejected_other error b :
  response_status <$> error_response error ≠ Some 401 →
  response_onRejected error b = (b, Rejected error).
Proof.
  intros H. unfold response_onRejected. by rewrite bool_decide_eq_false_2.
Qed.


(** * The claims *)

Lemma deploy_empty d :
  _propertyIdCounter (deploy d) = 0 ∧ _owners (deploy d) = ∅ ∧
  _locationToPropertyId (deploy d) = ∅ ∧ properties (deploy d) = ∅ ∧
  _ownerProperties (deploy d) = ∅ ∧ _paused (deploy d) = false.
Proof.
  unfold deploy.
  destruct (constructor _ _) as [[[[] s0] evs]|msg] eqn:E; [|done].
  revert E. unfold constructor. inv_M.
Qed.

(** C1.  The uniqueness check of [registerProperty] (line 134) reads the
    location index before the recipient is called (line 140) and the
    index is written after it (line 160).  The contract [20] holds the
    notary role; when the notary [2] registers "Lot 8" for it, its hook
    registers "Lot 8" once more, for [21].  Both registrations succeed in
    the one transaction: the ids [2] and [3] are in use, both structs
    carry "Lot 8", and the log holds two [PropertyRegistered] events for
    that location. *)
Theorem C1_reentrant_registration_shares_location :
  let s0 := run (deploy 1) contract_notary_history in
  let s := step s0 reentrant_registration in
  getPropertyIdByLocation s0 "Lot 8" = 0 ∧
  events_of s0 reentrant_registration
    = [Transfer 0 20 2; Transfer 0 21 3; MetadataUpdate 3;
       PropertyRegistered 3 21 "Lot 8" 700 20; MetadataUpdate 2;
       PropertyRegistered 2 20 "Lot 8" 500 2] ∧
  getTotalProperties s = 3 ∧
  ownerOf_view s 2 = Ok 20 ∧ ownerOf_view s 3 = Ok 21 ∧
  location (property_at s 2) = "Lot 8" ∧
  location (property_at s 3) = "Lot 8" ∧
  getPropertyIdByLocation s "Lot 8" = 2.
Proof. split_and!; by vm_compute. Qed.

(** C2.  The registry inherits [transferFrom], which moves a token without
    touching the per-owner lists.  After the token of property [1] went
    from [10] to [11] that way and a [transferProperty] brought it back,
    the list of [10] holds the id twice; the next [transferProperty], from
    [10] to [12], succeeds and sets owner, value, date and status, but
    takes out one entry only: the list of the previous owner [10] still
    contains the id. *)
Theorem C2_previous_owner_list_keeps_id :
  let s := run (deploy 1) direct_transfer_history in
  ownerOf_view s 1 = Ok 10 ∧
  getPropertiesByOwner s 10 = [1; 1] ∧
  ∃ s',
    transferProperty 1 12 9900 (at_time 2 50) s
      = Ok (tt, s', [Transfer 10 12 1; PropertyTransferred 1 10 12 9900]) ∧
    ownerOf_view s' 1 = Ok 12 ∧
    getPropertiesByOwner s' 12 = [1] ∧
    value (property_at s' 1) = 9900 ∧
    lastTransferDate (property_at s' 1) = 50 ∧
    status (property_at s' 1) = ACTIVE ∧
    getPropertiesByOwner s' 10 = [1].
Proof.
  intros s.
  split; [by vm_compute|]. split; [by vm_compute|].
  exists (step s (mkTx (at_time 2 50) (TransferProperty 1 12 9900))).
  repeat split; by vm_compute.
Qed.

(** C3.  A successful [registerProperty] mints a token id that did not
    exist before to [owner]: when the recipient is called the token is
    the owner's.  At return the token is with whoever the recipient left
    it with, the owner when the recipient did not move it.  The attribute
    struct is stored as given, with status ACTIVE, [verified] false and
    the calling notary as registrar; [PropertyRegistered] is fired, and
    the new id is returned, is indexed under the location and is the last
    entry of the owner's list. *)
Theorem C3_registerProperty_effect e s owner loc co ar va pt dh uri pid s' evs :
  registerProperty owner loc co ar va pt dh uri e s = Ok (pid, s', evs) →
  _exists s pid = false ∧
  ownerOf_view (minted s owner) pid = Ok owner ∧
  getProperty s' pid =
    Ok (mkProperty pid loc co ar va pt ACTIVE (block_timestamp e)
          (block_timestamp e) dh (msg_sender e) false) ∧
  hasRole s NOTARY_ROLE (msg_sender e) = true ∧
  In (Transfer 0 owner pid) evs ∧
  In (PropertyRegistered pid owner loc va (msg_sender e)) evs ∧
  getPropertyIdByLocation s' loc = pid ∧
  ∃ s2 evs2,
    onERC721Received e (minted s owner) = Ok (true, s2, evs2) ∧
    ownerOf_view s' pid = ownerOf_view s2 pid ∧
    (_ownerOf s2 pid = owner → ownerOf_view s' pid = Ok owner) ∧
    getPropertiesByOwner s' owner = getPropertiesByOwner s2 owner ++ [pid] ∧
    (quiet e →
     ownerOf_view s' pid = Ok owner ∧
     getPropertiesByOwner s' owner = getPropertiesByOwner s owner ++ [pid] ∧
     getTotalProperties s' = pid).
Proof.
  intros H.
  pose proof (registerProperty_after_hook _ _ _ _ _ _ _ _ _ _ _ _ _ H)
    as (Ho & Hx & Hpid & s2 & evs2 & Hacc & Hevs & Hex & Hown & _ & Hnew & _).
  destruct (registerProperty_index _ _ _ _ _ _ _ _ _ _ _ _ _ _ _ H Hacc)
    as (_ & Hc & Hloc & Hidx & _).
  pose proof H as Hinv.
  apply registerProperty_inv in Hinv
    as ((_ & Hr & _) & _ & s2' & evs2' & Hacc' & Hx2 & _).
  rewrite Hacc in Hacc'. injection Hacc' as <- <-.
  assert (_exists s' pid = true) as Hx' by (by rewrite Hex).
  assert (ownerOf_view (minted s owner) pid = Ok owner) as Hminted.
  { unfold ownerOf_view.
    assert (_exists (minted s owner) pid = true) as ->
      by (apply minted_exists; auto).
    unfold minted, _ownerOf. simpl. subst pid. by simplify_map_eq. }
  unfold getProperty, getPropertiesByOwner, getPropertyIdByLocation,
    getTotalProperties.
  rewrite Hx', Hnew.
  split; [done|]. split; [done|]. split; [done|]. split; [done|].
  split; [rewrite Hevs; by left|].
  split; [rewrite Hevs; right; apply in_or_app; right; right; by left|].
  split; [unfold locationToPropertyId; rewrite Hloc; by simplify_map_eq|].
  assert (ownerProperties s' owner = ownerProperties s2 owner ++ [pid])
    as Hlist.
  { unfold ownerProperties at 1. rewrite Hidx. by simplify_map_eq. }
  exists s2, evs2. split; [done|].
  split; [unfold ownerOf_view; by rewrite Hex, Hown|].
  split; [intros <-; unfold ownerOf_view; by rewrite Hx', Hown|].
  split; [done|].
  intros Hq. apply Hq in Hacc as [-> _].
  unfold ownerOf_view in Hminted |- *.
  rewrite Hex, Hown, Hlist, Hc. split; [done|]. split; [done|].
  unfold minted. simpl. by subst pid.
Qed.

Lemma C3_registerProperty_effect_witness :
  let s' := run (deploy 1) registration_history in
  ownerOf_view (minted (run (deploy 1) notary_history) 10) 1 = Ok 10 ∧
  getProperty s' 1 =
    Ok (mkProperty 1 "Lot 7" "4.05,9.70" 250 9000 AGRICULTURAL ACTIVE 20 20
          "QmDeed" 2 false) ∧
  getPropertyIdByLocation s' "Lot 7" = 1.
Proof.
  intros s'.
  pose proof (C3_registerProperty_effect (at_time 2 20)
                (run (deploy 1) notary_history) 10 "Lot 7" "4.05,9.70" 250
                9000 AGRICULTURAL "QmDeed" "ipfs://QmMeta" 1 s'
                [Transfer 0 10 1; MetadataUpdate 1;
                 PropertyRegistered 1 10 "Lot 7" 9000 2]) as H.
  destruct H as (_ & H1 & H2 & _ & _ & _ & H3 & _); [by vm_compute|].
  split; [exact H1|]. split; [exact H2|exact H3].
Defined.

(** The contract [30] receives the token of "Lot 9" and passes it on to
    [31] before it answers: [registerProperty] succeeds and returns the
    id [2], whose owner is then [31], not the [owner] it was called
    with. *)
Lemma C3_recipient_passes_token_on :
  let s := run (deploy 1) registration_history in
  let t := mkTx (mkContext 2 70 forwarding)
             (RegisterProperty 30 "Lot 9" "4.3,9.6" 90 800 COMMERCIAL
                "QmDeed4" "ipfs://QmMeta4") in
  registerProperty 30 "Lot 9" "4.3,9.6" 90 800 COMMERCIAL "QmDeed4"
    "ipfs://QmMeta4" (mkContext 2 70 forwarding) s
  = Ok (2, step s t,
        [Transfer 0 30 2; Transfer 30 31 2; MetadataUpdate 2;
         PropertyRegistered 2 30 "Lot 9" 800 2]) ∧
  ownerOf_view (step s t) 2 = Ok 31 ∧
  ownerOf_view (step s t) 2 ≠ Ok 30 ∧
  getPropertiesByOwner (step s t) 30 = [2] ∧
  getPropertiesByOwner (step s t) 31 = [].
Proof. split_and!; by vm_compute. Qed.

(** C4.  Each gated entry point succeeds only for a caller that holds the
    function's role, and reverts for every caller that does not:
    [registerProperty] and [transferProperty] ask for the notary role,
    [verifyProperty] for the surveyor role, [updatePropertyValue] for the
    tax authority role and [changePropertyStatus] for the admin role. *)
Theorem C4_role_gated_entry_points e s :
  let caller := msg_sender e in
  (∀ owner loc co ar va pt dh uri,
     (succeeds (registerProperty owner loc co ar va pt dh uri e s) →
      hasRole s NOTARY_ROLE caller = true) ∧
     (hasRole s NOTARY_ROLE caller = false →
      reverts (registerProperty owner loc co ar va pt dh uri e s))) ∧
  (∀ pid no nv,
     (succeeds (transferProperty pid no nv e s) →
      hasRole s NOTARY_ROLE caller = true) ∧
     (hasRole s NOTARY_ROLE caller = false →
      reverts (transferProperty pid no nv e s))) ∧
  (∀ pid b,
     (succeeds (verifyProperty pid b e s) →
      hasRole s SURVEYOR_ROLE caller = true) ∧
     (hasRole s SURVEYOR_ROLE caller = false →
      reverts (verifyProperty pid b e s))) ∧
  (∀ pid nv,
     (succeeds (updatePropertyValue pid nv e s) →
      hasRole s TAX_AUTHORITY_ROLE caller = true) ∧
     (hasRole s TAX_AUTHORITY_ROLE caller = false →
      reverts (updatePropertyValue pid nv e s))) ∧
  (∀ pid st,
     (succeeds (changePropertyStatus pid st e s) →
      hasRole s ADMIN_ROLE caller = true) ∧
     (hasRole s ADMIN_ROLE caller = false →
      reverts (changePropertyStatus pid st e s))).
Proof.
  intros caller. subst caller.
  split; [|split; [|split; [|split]]]; intros.
  - rewrite reverts_not_succeeds, registerProperty_succeeds_iff.
    unfold registerProperty_pre. split; [tauto|]. intros ->. intros (_ & ? & _).
    discriminate.
  - rewrite reverts_not_succeeds, transferProperty_succeeds_iff.
    unfold transferProperty_pre. split; [tauto|]. intros ->. intros (_ & ? & _).
    discriminate.
  - rewrite reverts_not_succeeds, verifyProperty_succeeds_iff.
    unfold verifyProperty_pre. split; [tauto|]. intros ->. intros (_ & ? & _).
    discriminate.
  - rewrite reverts_not_succeeds, updatePropertyValue_succeeds_iff.
    unfold updatePropertyValue_pre. split; [tauto|]. intros ->.
    intros (_ & ? & _). discriminate.
  - rewrite reverts_not_succeeds, changePropertyStatus_succeeds_iff.
    unfold changePropertyStatus_pre. split; [tauto|]. intros ->.
    intros (_ & ? & _). discriminate.
Qed.

(** C5.  A call that fails leaves nothing behind: the transaction of a
    reverting call ends in the storage it started from.  Each failure the
    specification lists makes the call revert: a caller without the role, a
    property id that does not exist, an empty location, a zero area, a
    duplicate location, a zero value, and also a recipient that does not
    accept the token after the counter was advanced and the token
    minted. *)
Theorem C5_failed_call_changes_nothing e s :
  (∀ (o : context) c, reverts (exec c o s) → step s (mkTx o c) = s) ∧
  (∀ (o : context) c,
     reverts (exec c o s) ∨
     ∃ s' evs, exec c o s = Ok (tt, s', evs) ∧ step s (mkTx o c) = s') ∧
  (∀ owner loc co ar va pt dh uri,
     hasRole s NOTARY_ROLE (msg_sender e) = false ∨ loc = "" ∨ ar = 0 ∨
     getPropertyIdByLocation s loc ≠ 0 ∨ owner = 0 ∨
     ¬ accepts e (minted s owner) →
     reverts (exec (RegisterProperty owner loc co ar va pt dh uri) e s)) ∧
  (∀ pid no nv,
     hasRole s NOTARY_ROLE (msg_sender e) = false ∨ _exists s pid = false →
     reverts (exec (TransferProperty pid no nv) e s)) ∧
  (∀ pid b,
     hasRole s SURVEYOR_ROLE (msg_sender e) = false ∨ _exists s pid = false →
     reverts (exec (VerifyProperty pid b) e s)) ∧
  (∀ pid st,
     hasRole s ADMIN_ROLE (msg_sender e) = false ∨ _exists s pid = false →
     reverts (exec (ChangePropertyStatus pid st) e s)) ∧
  (∀ pid nv,
     hasRole s TAX_AUTHORITY_ROLE (msg_sender e) = false ∨
     _exists s pid = false ∨ nv = 0 →
     reverts (exec (UpdatePropertyValue pid nv) e s)).
Proof.
  split; [intros o c; apply step_revert|].
  split.
  { intros o c. destruct (exec c o s) as [[[[] s'] evs]|msg] eqn:E.
    - right. exists s', evs. split; [done|]. by eapply step_success.
    - left. by exists msg. }
  split; [|split; [|split; [|split]]]; intros.
  - rewrite reverts_not_succeeds, exec_register_succeeds,
      registerProperty_succeeds_iff.
    unfold registerProperty_pre, getPropertyIdByLocation, accepts in *.
    intros (_ & Hr & Ho & Hl & Ha & Hm & _ & s2 & evs2 & Hacc & _).
    destruct H as [H | [-> | [-> | [H | [H | H]]]]]; simpl in *;
      try congruence; try lia.
    apply H. by exists s2, evs2.
  - simpl. rewrite reverts_not_succeeds, transferProperty_succeeds_iff.
    unfold transferProperty_pre. intros (_ & Hr & Hx & _).
    destruct H; congruence.
  - simpl. rewrite reverts_not_succeeds, verifyProperty_succeeds_iff.
    unfold verifyProperty_pre. intros (_ & Hr & Hx).
    destruct H; congruence.
  - simpl. rewrite reverts_not_succeeds, changePropertyStatus_succeeds_iff.
    unfold changePropertyStatus_pre. intros (_ & Hr & Hx).
    destruct H; congruence.
  - simpl. rewrite reverts_not_succeeds, updatePropertyValue_succeeds_iff.
    unfold updatePropertyValue_pre. intros (_ & Hr & Hx & Hv).
    destruct H as [H | [H | ->]]; try congruence; lia.
Qed.

(** C6.  While the pause switch is on, every mutating entry point reverts,
    whoever calls it; an admin's [pause] turns the switch on, it stays on
    through every transaction but an [unpause], and an admin's [unpause]
    changes the switch only, after which each entry point succeeds exactly
    under its own preconditions. *)
Theorem C6_pause_halts_mutations e s :
  (_paused s = true →
     (∀ owner loc co ar va pt dh uri,
        reverts (registerProperty owner loc co ar va pt dh uri e s)) ∧
     (∀ pid no nv, reverts (transferProperty pid no nv e s)) ∧
     (∀ pid b, reverts (verifyProperty pid b e s)) ∧
     (∀ pid nv, reverts (updatePropertyValue pid nv e s)) ∧
     (∀ pid st, reverts (changePropertyStatus pid st e s)) ∧
     (∀ t, tx_call t ≠ Unpause → _paused (step s t) = true)) ∧
  (hasRole s ADMIN_ROLE (msg_sender e) = true → _paused s = false →
     pause e s = Ok (tt, set_paused true s, [Paused (msg_sender e)])) ∧
  (hasRole s ADMIN_ROLE (msg_sender e) = true → _paused s = true →
     unpause e s = Ok (tt, set_paused false s, [Unpaused (msg_sender e)])) ∧
  (∀ e',
     let s' := set_paused false s in
     (∀ owner loc co ar va pt dh uri,
        succeeds (registerProperty owner loc co ar va pt dh uri e' s') ↔
        registerProperty_pre e' owner loc ar s') ∧
     (∀ pid no nv,
        succeeds (transferProperty pid no nv e' s') ↔
        transferProperty_pre e' pid no s) ∧
     (∀ pid b,
        succeeds (verifyProperty pid b e' s') ↔ verifyProperty_pre e' pid s) ∧
     (∀ pid nv,
        succeeds (updatePropertyValue pid nv e' s') ↔
        updatePropertyValue_pre e' pid nv s) ∧
     (∀ pid st,
        succeeds (changePropertyStatus pid st e' s') ↔
        changePropertyStatus_pre e' pid s)).
Proof.
  split; [|split; [|split]].
  - intros Hp. repeat split; intros.
    + apply reverts_not_succeeds. rewrite registerProperty_succeeds_iff.
      intros [? _]. congruence.
    + apply reverts_not_succeeds. rewrite transferProperty_succeeds_iff.
      intros [? _]. congruence.
    + apply reverts_not_succeeds. rewrite verifyProperty_succeeds_iff.
      intros [? _]. congruence.
    + apply reverts_not_succeeds. rewrite updatePropertyValue_succeeds_iff.
      intros [? _]. congruence.
    + apply reverts_not_succeeds. rewrite changePropertyStatus_succeeds_iff.
      intros [? _]. congruence.
    + unfold step.
      destruct (exec (tx_call t) (tx_env t) s) as [[[[] s'] evs]|msg] eqn:E;
        [|done].
      destruct (tx_call t); try done; simpl in E.
      { apply exec_register_inv, registerProperty_inv in E as ((? & _) & _).
        congruence. }
      all: try (apply safeTransferFrom_inv in E as (s1 & evs2 & E & _ & _);
                exfalso).
      all: revert E; inv_M; bool_norm; congruence.
  - intros Hr Hp. by apply pause_spec.
  - intros Hr Hp. by apply unpause_spec.
  - intros e' s'. subst s'.
    split; [|split; [|split; [|split]]]; intros.
    + rewrite registerProperty_succeeds_iff. simpl. tauto.
    + rewrite transferProperty_succeeds_iff. simpl. tauto.
    + rewrite verifyProperty_succeeds_iff. simpl. tauto.
    + rewrite updatePropertyValue_succeeds_iff. simpl. tauto.
    + rewrite changePropertyStatus_succeeds_iff. simpl. tauto.
Qed.

(** C7.  [transferProperty] reverts on a transfer to the current owner and
    on a property whose status is not ACTIVE; when it succeeds the property
    exists, is ACTIVE, and the new owner is neither the current owner nor
    the zero address. *)
Theorem C7_transferProperty_rejects e s pid no nv :
  (no = _ownerOf s pid → reverts (transferProperty pid no nv e s)) ∧
  (status (property_at s pid) ≠ ACTIVE →
   reverts (transferProperty pid no nv e s)) ∧
  (succeeds (transferProperty pid no nv e s) →
   _exists s pid = true ∧ status (property_at s pid) = ACTIVE ∧
   no ≠ _ownerOf s pid ∧ no ≠ 0).
Proof.
  rewrite reverts_not_succeeds, transferProperty_succeeds_iff.
  unfold transferProperty_pre. repeat split; try tauto.
  - intros -> (_ & _ & _ & _ & _ & H). by apply H.
  - intros Hne. destruct H as (_ & _ & _ & _ & _ & H). by apply H.
Qed.

(** C8.  For an existing property, a surveyor's [verifyProperty] with a
    given flag succeeds, and a second call with the same flag succeeds
    again and leaves the storage exactly as the first call left it. *)
Theorem C8_verifyProperty_idempotent e e' s pid b :
  _paused s = false →
  _exists s pid = true →
  hasRole s SURVEYOR_ROLE (msg_sender e) = true →
  hasRole s SURVEYOR_ROLE (msg_sender e') = true →
  ∃ s1,
    verifyProperty pid b e s
      = Ok (tt, s1, [PropertyVerified pid (msg_sender e) b]) ∧
    verified (property_at s1 pid) = b ∧
    verifyProperty pid b e' s1
      = Ok (tt, s1, [PropertyVerified pid (msg_sender e') b]).
Proof.
  intros Hp Hx Hr Hr'.
  exists (set_properties <[pid := with_verified b (property_at s pid)]> s).
  split; [by apply verifyProperty_ok|].
  split; [unfold property_at; simpl; by simplify_map_eq|].
  rewrite verifyProperty_ok; [|done|by split].
  do 3 f_equal. unfold set_properties, property_at. simpl.
  rewrite lookup_insert_eq. simpl. by rewrite insert_insert_eq.
Qed.

Lemma C8_verifyProperty_idempotent_witness :
  ∃ s1,
    verifyProperty 1 true (at_time 3 70) (run (deploy 1) survey_history)
      = Ok (tt, s1, [PropertyVerified 1 3 true]) ∧
    verified (property_at s1 1) = true ∧
    verifyProperty 1 true (at_time 3 80) s1
      = Ok (tt, s1, [PropertyVerified 1 3 true]).
Proof.
  apply (C8_verifyProperty_idempotent (at_time 3 70) (at_time 3 80)
           (run (deploy 1) survey_history) 1 true); by vm_compute.
Defined.

(** C9.  A response with status 401 reaches the interceptor as a rejected
    error; the interceptor removes ['auth_token'] from the local storage,
    leaves every other key, and rejects with the same error.  A response
    with any other status, and an error without a response, leave the
    local storage as it is. *)
Theorem C9_unauthorized_clears_token (b : browser) :
  (∀ response,
     response_status response = 401 →
     ∃ error,
       settle response = Rejected error ∧
       error_response error = Some response ∧
       snd (receive response b) = Rejected error ∧
       localStorage (fst (receive response b))
         = delete "auth_token" (localStorage b) ∧
       localStorage (fst (receive response b)) !! "auth_token" = None) ∧
  (∀ response,
     response_status response ≠ 401 →
     localStorage (fst (receive response b)) = localStorage b) ∧
  (∀ error,
     response_status <$> error_response error ≠ Some 401 →
     intercept (Rejected error) b = (b, Rejected error)).
Proof.
  split; [|split].
  - intros response H.
    exists (mkAxiosError (status_message "401") (Some response)).
    assert (settle response =
            Rejected (mkAxiosError (status_message "401") (Some response)))
      as Hs.
    { unfold settle. by rewrite H. }
    unfold receive. rewrite Hs. cbn [intercept].
    rewrite response_onRejected_401 by (simpl; by rewrite H). simpl.
    repeat split. apply lookup_delete_eq.
  - intros response H. unfold receive, settle.
    destruct (_ && _); cbn [intercept]; [done|].
    rewrite response_onRejected_other; [done|]. simpl. congruence.
  - intros error H. cbn [intercept]. by apply response_onRejected_other.
Qed.




(** * Further properties of the registry *)

(** X1.  A registered property is never deleted, and the attributes fixed
    at registration (id, location, coordinates, area, type, registration
    date, document hash, registrar) stay what they were through every
    later history of transactions. *)
Theorem registered_property_is_permanent s txs i :
  _exists s i = true →
  _exists (run s txs) i = true ∧
  same_deed (property_at (run s txs) i) (property_at s i).
Proof. apply run_keeps_deeds. Qed.

Lemma registered_property_is_permanent_witness :
  let s := run (run (deploy 1) registration_history) later_history in
  _exists s 1 = true ∧
  same_deed (property_at s 1)
    (mkProperty 1 "Lot 7" "4.05,9.70" 250 9000 AGRICULTURAL ACTIVE 20 20
       "QmDeed" 2 false).
Proof.
  apply (registered_property_is_permanent
           (run (deploy 1) registration_history) later_history 1).
  by vm_compute.
Defined.

Lemma deploy_no_token d i : _exists (deploy d) i = false.
Proof.
  assert (_owners (deploy d) = ∅) as H.
  { unfold deploy.
    destruct (constructor _ _) as [[[[] s] evs]|msg] eqn:E; [|done].
    revert E. unfold constructor. inv_M. }
  unfold _exists, _ownerOf. rewrite H. by simplify_map_eq.
Qed.

(** X2.  After every history, [getProperty] of an id in use returns a
    struct whose [id] field is that id, with a non-empty location and a
    positive area; for an id not in use it reverts. *)
Theorem getProperty_returns_well_formed_struct d txs i :
  let s := run (deploy d) txs in
  (_exists s i = true →
   ∃ p, getProperty s i = Ok p ∧ id p = i ∧
        0 < Z.of_nat (String.length (location p)) ∧ 0 < area p) ∧
  (_exists s i = false → getProperty s i = Revert "Property does not exist").
Proof.
  intros s. unfold getProperty. split; intros Hi; rewrite Hi; [|done].
  exists (property_at s i). split; [done|].
  apply (run_grows_well_formed (deploy d) txs); [done|].
  intros Hj. by rewrite deploy_no_token in Hj.
Qed.

Lemma deploy_no_property d i : properties (deploy d) !! i = None.
Proof.
  assert (properties (deploy d) = ∅) as H.
  { unfold deploy.
    destruct (constructor _ _) as [[[[] s] evs]|msg] eqn:E; [|done].
    revert E. unfold constructor. inv_M. }
  by rewrite H.
Qed.

(** X3.  The status TRANSFERRED that [transferProperty] writes while it
    runs is never left behind: along a history in which no
    [changePropertyStatus] is called, neither from outside nor by a
    recipient, every property is ACTIVE after every transaction. *)
Theorem status_changes_only_by_admin_call d txs i :
  Forall (λ t, Forall (λ c, is_status_change c = false) (calls_of t)) txs →
  status (property_at (run (deploy d) txs) i) = ACTIVE.
Proof.
  intros Hall. apply (run_all_active (deploy d) txs Hall).
  intros j. unfold property_at. by rewrite deploy_no_property.
Qed.

(** X4.  A property is registered unverified and no function but
    [verifyProperty] writes the flag: along a history without
    [verifyProperty] calls, from outside or by a recipient, every
    property is unverified, whatever transfers, value updates and status
    changes it went through. *)
Theorem verified_only_by_verifyProperty d txs i :
  Forall (λ t, Forall (λ c, is_verification c = false) (calls_of t)) txs →
  verified (property_at (run (deploy d) txs) i) = false.
Proof.
  intros Hall. apply (run_all_unverified (deploy d) txs Hall).
  intros j. unfold property_at. by rewrite deploy_no_property.
Qed.

Lemma status_changes_only_by_admin_call_witness :
  status (property_at
            (run (deploy 1)
               (contract_notary_history ++
                [reentrant_registration;
                 mkTx (at_time 2 70) (TransferProperty 1 11 9500)])) 1)
  = ACTIVE.
Proof.
  apply status_changes_only_by_admin_call.
  repeat (constructor; [repeat (constructor; [reflexivity|]); constructor|]).
  constructor.
Defined.

Lemma verified_only_by_verifyProperty_witness :
  verified (property_at
              (run (deploy 1)
                 (contract_notary_history ++
                  reentrant_registration :: later_history)) 3)
  = false.
Proof.
  apply verified_only_by_verifyProperty.
  repeat (constructor; [repeat (constructor; [reflexivity|]); constructor|]).
  constructor.
Defined.

(** ** The swap-and-pop removal *)

Lemma removeLoop_swap_pop pre0 pre post x :
  x ∉ pre →
  _removeLoop (pre ++ x :: post) (length pre0) (pre0 ++ pre ++ x :: post) x
  = pre0 ++ pre ++ swap_pop post.
Proof.
  revert pre0. induction pre as [|y pre IH]; intros pre0 Hx.
  - simpl. rewrite Z.eqb_refl.
    destruct post as [|p post].
    + rewrite last_snoc. rewrite insert_app_r_alt by lia.
      rewrite Nat.sub_diag. simpl. rewrite removelast_last.
      by rewrite app_nil_r.
    + assert (p :: post ≠ []) as Hne by done.
      destruct (exists_last Hne) as (r & z & Hr). unfold swap_pop.
      rewrite Hr.
      replace (pre0 ++ x :: r ++ [z]) with ((pre0 ++ x :: r) ++ [z])
        by (by rewrite <- app_assoc).
      rewrite !last_snoc. rewrite <- app_assoc. simpl.
      rewrite insert_app_r_alt by lia. rewrite Nat.sub_diag. simpl.
      replace (pre0 ++ z :: r ++ [z]) with ((pre0 ++ z :: r) ++ [z])
        by (by rewrite <- app_assoc).
      rewrite !removelast_last.
      destruct r; simpl; done.
  - apply not_elem_of_cons in Hx as [Hne Hx]. simpl.
    destruct (Z.eqb_spec y x); [congruence|].
    specialize (IH (pre0 ++ [y]) Hx).
    rewrite length_app, Nat.add_1_r in IH. rewrite <- !app_assoc in IH.
    exact IH.
Qed.

Lemma swap_pop_length post : length (swap_pop post) = length post.
Proof.
  destruct post as [|p post]; [done|].
  assert (p :: post ≠ []) as Hne by done.
  destruct (exists_last Hne) as (r & z & ->). unfold swap_pop.
  destruct (r ++ [z]) eqn:E; [by destruct r|]. rewrite <- E.
  rewrite removelast_last, length_app. simpl. lia.
Qed.

(** X5.  [_removePropertyFromOwner] never fails and touches the list of
    the given owner only.  When the id is not in the list the list stays
    as it is.  Otherwise the first occurrence of the id is overwritten by
    the last entry and the list shrinks by one: the entries before keep
    their place, the entries after are rotated (the order of the list is
    not kept), and a second occurrence of the id stays in the list. *)
Theorem removePropertyFromOwner_swap_and_pop owner pid e s :
  ∃ s',
    _removePropertyFromOwner owner pid e s = Ok (tt, s', []) ∧
    (∀ a, a ≠ owner → ownerProperties s' a = ownerProperties s a) ∧
    _owners s' = _owners s ∧ properties s' = properties s ∧
    (pid ∉ ownerProperties s owner →
     ownerProperties s' owner = ownerProperties s owner) ∧
    (∀ pre post,
       ownerProperties s owner = pre ++ pid :: post → pid ∉ pre →
       ownerProperties s' owner = pre ++ swap_pop post ∧
       length (ownerProperties s' owner)
         = (length (ownerProperties s owner) - 1)%nat).
Proof.
  exists (set_ownerProperties
            <[owner := _removeLoop (ownerProperties s owner) 0
                         (ownerProperties s owner) pid]> s).
  split; [reflexivity|].
  split; [|split; [done|split; [done|split]]].
  - intros a Ha. unfold ownerProperties. simpl. by simplify_map_eq.
  - intros Hout. unfold ownerProperties at 1. simpl. simplify_map_eq.
    by apply removeLoop_not_in.
  - intros pre post Hl Hpre.
    assert (ownerProperties
              (set_ownerProperties
                 <[owner := _removeLoop (ownerProperties s owner) 0
                              (ownerProperties s owner) pid]> s) owner
            = pre ++ swap_pop post) as Heq.
    { unfold ownerProperties at 1. simpl. simplify_map_eq.
      rewrite Hl. apply (removeLoop_swap_pop [] pre post pid Hpre). }
    split; [exact Heq|].
    rewrite Heq, Hl, !length_app, swap_pop_length. simpl. lia.
Qed.

Example removeLoop_reorders :
  _removeLoop [4; 7; 9; 12] 0 [4; 7; 9; 12] 7 = [4; 12; 9].
Proof. reflexivity. Qed.

(** ** The per-owner lists and token ownership *)

Lemma removeLoop_keeps l x y :
  y ∈ l → y ≠ x → y ∈ _removeLoop l 0 l x.
Proof.
  intros Hy Hne. destruct (decide (x ∈ l)) as [Hin|Hout].
  - pose proof (removeLoop_perm [] l x Hin) as Hperm. simpl in Hperm.
    rewrite <- Hperm in Hy. by apply elem_of_cons in Hy as [?|?].
  - by rewrite removeLoop_not_in.
Qed.

(** Calls that neither register nor transfer leave owners and lists. *)
Lemma exec_other_index e c s u s' evs :
  exec c e s = Ok (u, s', evs) →
  match c with
  | RegisterProperty _ _ _ _ _ _ _ _ | TransferProperty _ _ _
  | TransferFrom _ _ _ | SafeTransferFrom _ _ _ => True
  | _ => _owners s' = _owners s ∧ _ownerProperties s' = _ownerProperties s
  end.
Proof.
  intros H. destruct c; try done; revert H; simpl; inv_M.
Qed.

Lemma step_index_complete s t :
  calls_back t = false →
  is_direct_transfer (tx_call t) = false →
  index_inv s → index_complete s → index_complete (step s t).
Proof.
  intros Hq%tx_quiet Hdirect Hinv Hcomp. unfold step.
  destruct (exec (tx_call t) (tx_env t) s) as [[[[] s'] evs]|msg] eqn:E;
    [|done].
  pose proof (exec_other_index _ _ _ _ _ _ E) as Hother.
  destruct (tx_call t) eqn:Hcall; try discriminate;
    try (destruct Hother as [Ho Hl]; intros i Hi;
         unfold _exists, _ownerOf, ownerProperties in *;
         rewrite Ho in *; rewrite Hl; by apply Hcomp).
  - apply exec_register_inv in E.
    intros i Hi.
    pose proof E as E'.
    apply registerProperty_quiet in E'
      as (_ & _ & _ & Hown & _ & _ & Hidx & _); [|done].
    assert (∀ a, ownerProperties s' a =
                 if decide (a = owner) then ownerProperties s a ++ [next_id s]
                 else ownerProperties s a) as Hlists.
    { intros a. unfold ownerProperties. rewrite Hidx.
      destruct (decide (a = owner)) as [->|]; by simplify_map_eq. }
    destruct (decide (i = next_id s)) as [->|Hne].
    + assert (_ownerOf s' (next_id s) = owner) as ->.
      { unfold _ownerOf. rewrite Hown. by simplify_map_eq. }
      rewrite Hlists, decide_True by done.
      apply elem_of_app. right. by apply list_elem_of_singleton.
    + assert (_ownerOf s' i = _ownerOf s i) as Hsame.
      { unfold _ownerOf. rewrite Hown. by simplify_map_eq. }
      assert (_exists s i = true) as Hold.
      { rewrite exists_ownerOf in *. congruence. }
      rewrite Hsame, Hlists. specialize (Hcomp i Hold).
      destruct (decide (_ownerOf s i = owner)); [|done].
      apply elem_of_app. by left.
  - simpl in E. pose proof E as E'.
    apply transferProperty_inv in E'
      as (_ & Hown & Hothers & _ & _ & Hnew & Hold & Hrest & _).
    pose proof (exec_frame (tx_env t)
                  (TransferProperty propertyId newOwner newValue) _ _ _ _ E
                  eq_refl) as (_ & _ & _ & Hx).
    intros i Hi. rewrite Hx in Hi.
    destruct (decide (i = propertyId)) as [->|Hne].
    + rewrite Hown, Hnew. apply elem_of_app. right.
      by apply list_elem_of_singleton.
    + rewrite Hothers by done. specialize (Hcomp i Hi).
      destruct (decide (_ownerOf s i = newOwner)) as [Heq|Hne1].
      * rewrite Heq in *. rewrite Hnew. apply elem_of_app. by left.
      * destruct (decide (_ownerOf s i = _ownerOf s propertyId))
          as [Heq|Hne2].
        -- rewrite Heq in *. rewrite Hold. by apply removeLoop_keeps.
        -- by rewrite Hrest.
Qed.

Lemma run_index_complete s txs :
  Forall (λ t, calls_back t = false ∧ is_direct_transfer (tx_call t) = false)
    txs →
  index_inv s → index_complete s →
  index_inv (run s txs) ∧ index_complete (run s txs).
Proof.
  revert s. induction txs as [|t txs IH]; intros s Hall Hinv Hcomp; [done|].
  apply Forall_cons in Hall as [[Hq Ht] Hall]. rewrite run_cons.
  apply IH; [done|by apply step_index_inv|by apply step_index_complete].
Qed.

(** X6.  As long as tokens move through [transferProperty] only (no
    inherited [transferFrom] or [safeTransferFrom] in the history) and no
    recipient calls back into the registry, [getPropertiesByOwner] is
    exact: the list of an address holds each id at most once, and holds
    an id exactly when that address owns the token. *)
Theorem getPropertiesByOwner_exact_without_direct_transfers d txs a :
  Forall (λ t, calls_back t = false ∧ is_direct_transfer (tx_call t) = false)
    txs →
  let s := run (deploy d) txs in
  NoDup (getPropertiesByOwner s a) ∧
  ∀ i, i ∈ getPropertiesByOwner s a ↔ ownerOf_view s i = Ok a.
Proof.
  intros Hall s.
  destruct (run_index_complete (deploy d) txs Hall (deploy_index_inv d))
    as [Hinv Hcomp].
  { intros i Hi. by rewrite deploy_no_token in Hi. }
  fold s in Hinv, Hcomp. unfold getPropertiesByOwner, ownerOf_view.
  destruct (Hinv a) as [Hnd Hmem]. split; [done|].
  intros i. split.
  - intros Hi. apply Hmem in Hi as [Ho Ha].
    assert (_exists s i = true) as -> by (apply exists_ownerOf; congruence).
    by rewrite Ho.
  - destruct (_exists s i) eqn:Hx; [|done]. intros [= <-]. by apply Hcomp.
Qed.

Lemma getPropertiesByOwner_exact_without_direct_transfers_witness :
  let s := run (deploy 1)
             (registration_history ++
              [mkTx (at_time 2 30) (TransferProperty 1 11 9500)]) in
  NoDup (getPropertiesByOwner s 11) ∧
  ∀ i, i ∈ getPropertiesByOwner s 11 ↔ ownerOf_view s i = Ok 11.
Proof.
  apply (getPropertiesByOwner_exact_without_direct_transfers 1
           (registration_history ++
            [mkTx (at_time 2 30) (TransferProperty 1 11 9500)]) 11).
  repeat (constructor; [by split|]). constructor.
Defined.

(** X7.  The inherited [transferFrom] and [safeTransferFrom] are stopped
    by the pause switch, through the registry's [_beforeTokenTransfer].
    A successful [transferFrom] moves the token and nothing else: the
    per-owner lists, the attribute structs (value, last transfer date,
    status) and the location index stay as they were, and no
    [PropertyTransferred] is emitted; so when the lists were exact before
    and the recipient is another address, the token is afterwards missing
    from the list of its owner and still in the list of the sender.
    [safeTransferFrom] does the same and then calls the recipient on that
    storage; what it returns is what the recipient left. *)
Theorem direct_transfer_skips_bookkeeping e s from to tokenId :
  (_paused s = true →
   reverts (transferFrom from to tokenId e s) ∧
   reverts (safeTransferFrom from to tokenId e s)) ∧
  (∀ s' evs,
     transferFrom from to tokenId e s = Ok (tt, s', evs) →
     _ownerOf s tokenId = from ∧
     ownerOf_view s' tokenId = Ok to ∧
     evs = [Transfer from to tokenId] ∧
     properties s' = properties s ∧
     _locationToPropertyId s' = _locationToPropertyId s ∧
     (∀ a, getPropertiesByOwner s' a = getPropertiesByOwner s a) ∧
     (index_inv s → index_complete s → from ≠ to →
      (tokenId ∉ getPropertiesByOwner s' to) ∧
      (tokenId ∈ getPropertiesByOwner s' from))) ∧
  (∀ s' evs,
     safeTransferFrom from to tokenId e s = Ok (tt, s', evs) ↔
     ∃ s1 evs2,
       transferFrom from to tokenId e s
         = Ok (tt, s1, [Transfer from to tokenId]) ∧
       onERC721Received e s1 = Ok (true, s', evs2) ∧
       evs = Transfer from to tokenId :: evs2).
Proof.
  assert (_paused s = true → reverts (transferFrom from to tokenId e s))
    as Hpaused.
  { intros Hp. apply reverts_not_succeeds. intros [[[[] s'] evs] H].
    revert H. inv_M; bool_norm; congruence. }
  split; [|split].
  - intros Hp. split; [by apply Hpaused|].
    apply reverts_not_succeeds. intros [[[[] s'] evs] H].
    apply safeTransferFrom_inv in H as (s1 & evs2 & H & _).
    apply Hpaused in Hp as [msg Hp]. congruence.
  - intros s' evs H.
    assert (_paused s = false ∧ _exists s tokenId = true ∧
            _ownerOf s tokenId = from ∧ to ≠ 0 ∧
            _owners s' = <[tokenId := to]> (_owners s) ∧
            evs = [Transfer from to tokenId] ∧
            properties s' = properties s ∧
            _locationToPropertyId s' = _locationToPropertyId s ∧
            _ownerProperties s' = _ownerProperties s)
      as (Hp & Hx & Hfrom & Hto & Hown & Hev & Hprop & Hloc & Hidx).
    { revert H; simpl; inv_M; bool_norm;
        unfold _exists in *; bool_norm; repeat split; try done;
        try (apply negb_true_iff, Z.eqb_neq; assumption). }
    assert (_ownerOf s' tokenId = to) as Hnew.
    { unfold _ownerOf. rewrite Hown. by simplify_map_eq. }
    unfold ownerOf_view, getPropertiesByOwner, ownerProperties.
    assert (_exists s' tokenId = true) as ->
      by (apply exists_ownerOf; congruence).
    rewrite Hnew, Hidx.
    split; [done|]. split; [done|]. split; [done|]. split; [done|].
    split; [done|]. split; [done|].
    intros Hinv Hcomp Hne. split.
    + intros Hin. apply (Hinv to) in Hin as [Ho _]. congruence.
    + rewrite <- Hfrom. by apply Hcomp.
  - intros s' evs. split.
    + apply safeTransferFrom_inv.
    + intros (s1 & evs2 & H & Hacc & ->).
      by apply (safeTransferFrom_ok e s from to tokenId s1
                  [Transfer from to tokenId] s' evs2).
Qed.

Lemma transferFrom_succeeds_iff e s from to tokenId :
  succeeds (transferFrom from to tokenId e s) ↔
  _paused s = false ∧ transferFrom_pre e from to tokenId s.
Proof.
  unfold transferFrom_pre. split.
  - intros [[[[] s'] evs] H]. revert H. inv_M. bool_norm.
    unfold _exists. repeat split; try done.
    + by apply negb_true_iff, Z.eqb_neq.
    + by subst from.
  - intros (Hp & Hx & Hfrom & Hto & Hauth).
    destruct (transferFrom from to tokenId e s) as [r|msg] eqn:E;
      [by exists r|].
    exfalso. revert E. subst from. apply exists_ownerOf in Hx.
    inv_M; bool_norm; try congruence.
Qed.

(** ** Status, value and verification *)

(** X8.  A successful [changePropertyStatus] sets the status and leaves
    every other attribute and the owner.  A status other than ACTIVE stops
    [transferProperty] for every caller, but neither [verifyProperty] nor
    [updatePropertyValue], which succeed exactly as before, nor the
    inherited [transferFrom], which moves the token of a frozen property
    as it moves any other; setting the status back to ACTIVE makes
    [transferProperty] available again under its other preconditions. *)
Theorem changePropertyStatus_gates_transferProperty_only e s pid st s' evs :
  changePropertyStatus pid st e s = Ok (tt, s', evs) →
  property_at s' pid = with_status st (property_at s pid) ∧
  _ownerOf s' pid = _ownerOf s pid ∧
  evs = [PropertyStatusChanged pid (status (property_at s pid)) st] ∧
  (st ≠ ACTIVE →
   ∀ e' no nv, reverts (transferProperty pid no nv e' s')) ∧
  (st = ACTIVE → ∀ e' no nv,
     succeeds (transferProperty pid no nv e' s') ↔
     hasRole s NOTARY_ROLE (msg_sender e') = true ∧ no ≠ 0 ∧
     _ownerOf s pid ≠ no) ∧
  (∀ e' b, succeeds (verifyProperty pid b e' s') ↔
           succeeds (verifyProperty pid b e' s)) ∧
  (∀ e' nv, succeeds (updatePropertyValue pid nv e' s') ↔
            succeeds (updatePropertyValue pid nv e' s)) ∧
  (∀ e' from to, succeeds (transferFrom from to pid e' s') ↔
                 succeeds (transferFrom from to pid e' s)).
Proof.
  intros H.
  apply changePropertyStatus_inv in H as [(Hp & Hr & Hx) [= -> ->]].
  assert (property_at
            (set_properties <[pid := with_status st (property_at s pid)]> s)
            pid = with_status st (property_at s pid)) as Hnew.
  { unfold property_at. simpl. by simplify_map_eq. }
  split; [done|]. split; [done|]. split; [done|].
  split; [|split; [|split; [|split]]].
  - intros Hst e' no nv. apply reverts_not_succeeds.
    rewrite transferProperty_succeeds_iff. unfold transferProperty_pre.
    rewrite Hnew. simpl. tauto.
  - intros -> e' no nv.
    rewrite transferProperty_succeeds_iff. unfold transferProperty_pre.
    rewrite Hnew. simpl. unfold _exists in *. simpl. tauto.
  - intros e' b. rewrite !verifyProperty_succeeds_iff.
    unfold verifyProperty_pre. simpl. tauto.
  - intros e' nv. rewrite !updatePropertyValue_succeeds_iff.
    unfold updatePropertyValue_pre. simpl. tauto.
  - intros e' from to. rewrite !transferFrom_succeeds_iff.
    unfold transferFrom_pre. simpl. tauto.
Qed.

Lemma changePropertyStatus_gates_transferProperty_only_witness :
  let s := run (deploy 1) registration_history in
  let s' := step s (mkTx (at_time 1 40) (ChangePropertyStatus 1 FROZEN)) in
  status (property_at s' 1) = FROZEN ∧
  reverts (transferProperty 1 11 9500 (at_time 2 50) s') ∧
  (succeeds (transferFrom 10 11 1 (at_time 10 50) s') ↔
   succeeds (transferFrom 10 11 1 (at_time 10 50) s)).
Proof.
  intros s s'.
  destruct (changePropertyStatus_gates_transferProperty_only (at_time 1 40)
              s 1 FROZEN s' [PropertyStatusChanged 1 ACTIVE FROZEN])
    as (Hp & _ & _ & Hrev & _ & _ & _ & Hdirect); [by vm_compute|].
  split; [by rewrite Hp|]. split; [by apply Hrev|]. apply Hdirect.
Defined.

(** X9.  Only [updatePropertyValue] checks the value: whether
    [registerProperty] succeeds does not depend on the value, the
    coordinates, the document hash or the token URI it is given, and
    whether [transferProperty] succeeds does not depend on the new value,
    so both accept a zero value and store it; [updatePropertyValue] with a
    zero value reverts for every caller. *)
Theorem value_is_checked_on_update_only e s :
  (∀ owner loc ar pt co va dh uri co' va' dh' uri',
     succeeds (registerProperty owner loc co ar va pt dh uri e s) ↔
     succeeds (registerProperty owner loc co' ar va' pt dh' uri' e s)) ∧
  (∀ owner loc co ar pt dh uri pid s' evs,
     registerProperty owner loc co ar 0 pt dh uri e s = Ok (pid, s', evs) →
     value (property_at s' pid) = 0) ∧
  (∀ pid no nv nv',
     succeeds (transferProperty pid no nv e s) ↔
     succeeds (transferProperty pid no nv' e s)) ∧
  (∀ pid no s' evs,
     transferProperty pid no 0 e s = Ok (tt, s', evs) →
     value (property_at s' pid) = 0) ∧
  (∀ pid, reverts (updatePropertyValue pid 0 e s)).
Proof.
  split; [|split; [|split; [|split]]].
  - intros. by rewrite !registerProperty_succeeds_iff.
  - intros * H. apply registerProperty_after_hook in H
      as (_ & _ & _ & s2 & evs2 & _ & _ & _ & _ & _ & Hnew & _).
    by rewrite Hnew.
  - intros. by rewrite !transferProperty_succeeds_iff.
  - intros * H. apply transferProperty_inv in H as (_ & _ & _ & Hp & _).
    by rewrite Hp.
  - intros pid. apply reverts_not_succeeds.
    rewrite updatePropertyValue_succeeds_iff. unfold updatePropertyValue_pre.
    lia.
Qed.

Lemma state_eta s :
  mkState (_owners s) (_balances s) (_tokenApprovals s)
    (_operatorApprovals s) (_tokenURIs s) (_roles s) (_paused s)
    (_propertyIdCounter s) (properties s) (_locationToPropertyId s)
    (_ownerProperties s) = s.
Proof. by destruct s. Qed.

(** X10.  Verification can be taken back: on a stored, unverified
    property [verifyProperty(id, true)] followed by
    [verifyProperty(id, false)] gives back the storage the registry had
    before the two calls. *)
Theorem verifyProperty_true_then_false_restores e e' s pid p :
  properties s !! pid = Some p → verified p = false →
  _paused s = false → _exists s pid = true →
  hasRole s SURVEYOR_ROLE (msg_sender e) = true →
  hasRole s SURVEYOR_ROLE (msg_sender e') = true →
  ∃ s1,
    verifyProperty pid true e s
      = Ok (tt, s1, [PropertyVerified pid (msg_sender e) true]) ∧
    verified (property_at s1 pid) = true ∧
    verifyProperty pid false e' s1
      = Ok (tt, s, [PropertyVerified pid (msg_sender e') false]).
Proof.
  intros Hp Hv Hpause Hx Hr Hr'.
  exists (set_properties <[pid := with_verified true (property_at s pid)]> s).
  split; [by apply verifyProperty_ok|].
  split; [unfold property_at; simpl; by simplify_map_eq|].
  rewrite verifyProperty_ok; [|done|by split].
  do 3 f_equal. unfold set_properties, property_at. simpl.
  rewrite lookup_insert_eq, insert_insert_eq, Hp. simpl.
  assert (with_verified false (with_verified true p) = p) as ->.
  { destruct p. simpl in *. by subst. }
  rewrite insert_id by done. apply state_eta.
Qed.

(** X11.  [pause] and [unpause] are exact inverses: an admin's [pause] on
    a running registry followed by an admin's [unpause] gives back the
    storage as it was.  [pause] on a paused registry and [unpause] on a
    running one revert. *)
Theorem pause_then_unpause_restores e e' s :
  hasRole s ADMIN_ROLE (msg_sender e) = true →
  hasRole s ADMIN_ROLE (msg_sender e') = true →
  _paused s = false →
  ∃ s1,
    pause e s = Ok (tt, s1, [Paused (msg_sender e)]) ∧
    _paused s1 = true ∧
    reverts (pause e' s1) ∧
    reverts (unpause e' s) ∧
    unpause e' s1 = Ok (tt, s, [Unpaused (msg_sender e')]).
Proof.
  intros Hr Hr' Hp. exists (set_paused true s).
  split; [by apply pause_spec|]. split; [done|].
  split; [|split].
  - apply reverts_not_succeeds. intros [r H].
    apply pause_spec in H as [[_ H] _]. discriminate.
  - apply reverts_not_succeeds. intros [r H].
    apply unpause_spec in H as [[_ H] _]. congruence.
  - apply unpause_spec. split; [by split|].
    do 2 f_equal. unfold set_paused. simpl. rewrite <- Hp.
    symmetry. apply state_eta.
Qed.

Lemma verifyProperty_true_then_false_restores_witness :
  let s := run (deploy 1) survey_history in
  ∃ s1,
    verifyProperty 1 true (at_time 3 70) s
      = Ok (tt, s1, [PropertyVerified 1 3 true]) ∧
    verified (property_at s1 1) = true ∧
    verifyProperty 1 false (at_time 3 80) s1
      = Ok (tt, s, [PropertyVerified 1 3 false]).
Proof.
  intros s.
  apply (verifyProperty_true_then_false_restores (at_time 3 70)
           (at_time 3 80) s 1
           (mkProperty 1 "Lot 7" "4.05,9.70" 250 9000 AGRICULTURAL ACTIVE
              20 20 "QmDeed" 2 false)); by vm_compute.
Defined.

Lemma pause_then_unpause_restores_witness :
  let s := run (deploy 1) registration_history in
  ∃ s1,
    pause (at_time 1 30) s = Ok (tt, s1, [Paused 1]) ∧
    _paused s1 = true ∧
    reverts (pause (at_time 1 40) s1) ∧
    reverts (unpause (at_time 1 40) s) ∧
    unpause (at_time 1 40) s1 = Ok (tt, s, [Unpaused 1]).
Proof.
  intros s.
  apply (pause_then_unpause_restores (at_time 1 30) (at_time 1 40) s);
    by vm_compute.
Defined.

(** ** Deployment *)

Lemma deploy_roles d :
  _roles (deploy d)
    = {[ (ADMIN_ROLE, d) ]} ∪ ({[ (DEFAULT_ADMIN_ROLE, d) ]} ∪ ∅).
Proof.
  unfold deploy.
  destruct (constructor _ _) as [[[[] s] evs]|msg] eqn:E.
  - revert E. unfold constructor. inv_M; unfold_get; simpl in *.
    all: exfalso.
    all: repeat match goal with
         | H : bool_decide _ = true |- _ => apply bool_decide_eq_true in H
         end; set_solver.
  - revert E. unfold constructor. inv_M.
Qed.

(** X12.  Right after deployment the deployer, and nobody else, holds the
    default admin role and the admin role; nobody is notary, surveyor or
    tax authority, so [registerProperty], [verifyProperty] and
    [updatePropertyValue] revert for every caller, the deployer included,
    until a role is granted; the registry is running and empty.  The
    deployer can grant a role, and the grantee then holds it. *)
Theorem deployment_grants_admin_roles_only d :
  let s := deploy d in
  (∀ r a, hasRole s r a = true ↔
          a = d ∧ (r = DEFAULT_ADMIN_ROLE ∨ r = ADMIN_ROLE)) ∧
  _paused s = false ∧ getTotalProperties s = 0 ∧
  (∀ e owner loc co ar va pt dh uri,
     reverts (registerProperty owner loc co ar va pt dh uri e s)) ∧
  (∀ e pid no nv, reverts (transferProperty pid no nv e s)) ∧
  (∀ e pid b, reverts (verifyProperty pid b e s)) ∧
  (∀ e pid nv, reverts (updatePropertyValue pid nv e s)) ∧
  (∀ e pid st, reverts (changePropertyStatus pid st e s)) ∧
  (∀ e r a, msg_sender e = d →
     ∃ s' evs, grantRole r a e s = Ok (tt, s', evs) ∧
               hasRole s' r a = true).
Proof.
  intros s.
  assert (∀ r a, hasRole s r a = true ↔
                 a = d ∧ (r = DEFAULT_ADMIN_ROLE ∨ r = ADMIN_ROLE))
    as Hroles.
  { intros r a. unfold hasRole, s. rewrite deploy_roles.
    rewrite bool_decide_eq_true. split.
    - intros H. set_solver.
    - intros [-> [-> | ->]]; set_solver. }
  assert (_paused s = false ∧ _propertyIdCounter s = 0) as [Hp Hc].
  { unfold s, deploy.
    destruct (constructor _ _) as [[[[] s0] evs]|msg] eqn:E; [|done].
    revert E. unfold constructor. inv_M. }
  assert (∀ r a, r ≠ DEFAULT_ADMIN_ROLE → r ≠ ADMIN_ROLE →
                 hasRole s r a = false) as Hnone.
  { intros r a H1 H2. destruct (hasRole s r a) eqn:E; [|done].
    apply Hroles in E as [_ [? | ?]]; congruence. }
  split; [done|]. split; [done|]. split; [done|].
  split; [|split; [|split; [|split; [|split]]]].
  - intros. apply reverts_not_succeeds.
    rewrite registerProperty_succeeds_iff. unfold registerProperty_pre.
    rewrite Hnone by done. intros (_ & ? & _). discriminate.
  - intros. apply reverts_not_succeeds.
    rewrite transferProperty_succeeds_iff. unfold transferProperty_pre.
    rewrite Hnone by done. intros (_ & ? & _). discriminate.
  - intros. apply reverts_not_succeeds.
    rewrite verifyProperty_succeeds_iff. unfold verifyProperty_pre.
    rewrite Hnone by done. intros (_ & ? & _). discriminate.
  - intros. apply reverts_not_succeeds.
    rewrite updatePropertyValue_succeeds_iff. unfold updatePropertyValue_pre.
    rewrite Hnone by done. intros (_ & ? & _). discriminate.
  - intros e pid st. apply reverts_not_succeeds.
    rewrite changePropertyStatus_succeeds_iff.
    unfold changePropertyStatus_pre. unfold s.
    rewrite deploy_no_token. intros (_ & _ & ?). discriminate.
  - intros e r a He.
    assert (hasRole s DEFAULT_ADMIN_ROLE (msg_sender e) = true) as Hadm.
    { apply Hroles. rewrite He. auto. }
    destruct (hasRole s r a) eqn:Hra.
    + exists s, []. split; [|done].
      unfold_M. unfold getRoleAdmin. by rewrite Hadm, Hra.
    + exists (set_roles (λ x, {[ (r, a) ]} ∪ x) s),
        [RoleGranted r a (msg_sender e)].
      split.
      * unfold_M. unfold getRoleAdmin. by rewrite Hadm, Hra.
      * unfold hasRole. simpl. apply bool_decide_eq_true. set_solver.
Qed.

(** ** Compositions *)

(** X13.  Value updates do not accumulate: after two successful
    [updatePropertyValue] calls on a property the storage is the one a
    single call with the second value gives, and the second event reports
    the first value as the old one. *)
Theorem updatePropertyValue_last_write_wins e e' s pid v1 v2 s1 evs1 s2 evs2 :
  updatePropertyValue pid v1 e s = Ok (tt, s1, evs1) →
  updatePropertyValue pid v2 e' s1 = Ok (tt, s2, evs2) →
  evs2 = [PropertyValueUpdated pid v1 v2 (msg_sender e')] ∧
  value (property_at s2 pid) = v2 ∧
  ∃ evs, updatePropertyValue pid v2 e' s = Ok (tt, s2, evs).
Proof.
  intros H1 H2.
  apply updatePropertyValue_inv in H1 as [(Hp & Hr & Hx & Hv) [= -> ->]].
  apply updatePropertyValue_inv in H2 as [(_ & Hr' & _ & Hv') [= -> ->]].
  assert (property_at
            (set_properties <[pid := with_value v1 (property_at s pid)]> s)
            pid = with_value v1 (property_at s pid)) as Hmid.
  { unfold property_at. simpl. by simplify_map_eq. }
  rewrite Hmid. split; [done|]. split.
  - unfold property_at. simpl. by simplify_map_eq.
  - eexists. rewrite updatePropertyValue_ok; [|done|by repeat split].
    do 3 f_equal. unfold set_properties. simpl.
    by rewrite insert_insert_eq.
Qed.

Lemma removeLoop_last m x :
  x ∉ m → _removeLoop (m ++ [x]) 0 (m ++ [x]) x = m.
Proof.
  intros Hx. pose proof (removeLoop_swap_pop [] m [] x Hx) as H.
  simpl in H. by rewrite app_nil_r in H.
Qed.

(** X14.  A transfer there and back: when the per-owner lists are exact
    and the notary transfers a property from [a] to [b] and then back to
    [a], [a] owns it again, the list of [b] is exactly what it was, and
    the list of [a] holds the same ids as before, the returned id now
    last. *)
Theorem transferProperty_there_and_back e e' s pid b nv nv' s1 evs1 s2 evs2 :
  index_inv s → index_complete s →
  transferProperty pid b nv e s = Ok (tt, s1, evs1) →
  transferProperty pid (_ownerOf s pid) nv' e' s1 = Ok (tt, s2, evs2) →
  let a := _ownerOf s pid in
  ownerOf_view s2 pid = Ok a ∧
  getPropertiesByOwner s2 b = getPropertiesByOwner s b ∧
  getPropertiesByOwner s2 a
    = _removeLoop (getPropertiesByOwner s a) 0 (getPropertiesByOwner s a) pid
      ++ [pid] ∧
  getPropertiesByOwner s2 a ≡ₚ getPropertiesByOwner s a ∧
  (∀ c, c ≠ a → c ≠ b →
        getPropertiesByOwner s2 c = getPropertiesByOwner s c) ∧
  value (property_at s2 pid) = nv' ∧
  lastTransferDate (property_at s2 pid) = block_timestamp e'.
Proof.
  intros Hinv Hcomp H1 H2 a. unfold getPropertiesByOwner.
  apply transferProperty_inv in H1
    as ((_ & _ & Hx & _ & _ & Hab) & Hown1 & _ & _ & _ & Hnew1 & Hold1
        & Hrest1 & _).
  apply transferProperty_inv in H2
    as (_ & Hown2 & _ & Hp2 & _ & Hnew2 & Hold2 & Hrest2 & _).
  fold a in Hab, Hold1, Hrest1, Hown2, Hnew2, Hrest2.
  rewrite Hown1 in Hold2, Hrest2.
  assert (pid ∉ ownerProperties s b) as Hnotb.
  { intros Hin. apply (Hinv b) in Hin as [? _]. by apply Hab. }
  assert (pid ∈ ownerProperties s a) as Hina by (by apply Hcomp).
  unfold ownerOf_view.
  assert (_exists s2 pid = true) as ->.
  { apply exists_ownerOf. rewrite Hown2. by apply exists_ownerOf in Hx. }
  rewrite Hown2. split; [done|].
  split; [rewrite Hold2, Hnew1; by apply removeLoop_last|].
  split; [by rewrite Hnew2, Hold1|].
  split.
  { rewrite Hnew2, Hold1. rewrite <- Permutation_cons_append.
    apply (removeLoop_perm [] _ pid Hina). }
  split.
  { intros c Hca Hcb. rewrite Hrest2 by done. by apply Hrest1. }
  by rewrite Hp2.
Qed.

Lemma transferProperty_there_and_back_witness :
  let s := run (deploy 1) registration_history in
  let s1 := step s (mkTx (at_time 2 30) (TransferProperty 1 11 9500)) in
  let s2 := step s1 (mkTx (at_time 2 40) (TransferProperty 1 10 9900)) in
  ownerOf_view s2 1 = Ok 10 ∧
  getPropertiesByOwner s2 11 = getPropertiesByOwner s 11 ∧
  getPropertiesByOwner s2 10 ≡ₚ getPropertiesByOwner s 10.
Proof.
  intros s s1 s2.
  assert (Forall (λ t, calls_back t = false ∧
                       is_direct_transfer (tx_call t) = false)
            registration_history) as Hall
    by (repeat (constructor; [by split|]); constructor).
  destruct (run_index_complete (deploy 1) registration_history Hall
              (deploy_index_inv 1)) as [Hinv Hcomp].
  { intros i Hi. by rewrite deploy_no_token in Hi. }
  destruct (transferProperty_there_and_back (at_time 2 30) (at_time 2 40) s
              1 11 9500 9900 s1
              [Transfer 10 11 1; PropertyTransferred 1 10 11 9500] s2
              [Transfer 11 10 1; PropertyTransferred 1 11 10 9900]
              Hinv Hcomp)
    as (Ho & Hb & _ & Ha & _); [by vm_compute|by vm_compute|].
  split; [exact Ho|]. split; [exact Hb|exact Ha].
Defined.

Lemma updatePropertyValue_last_write_wins_witness :
  let s := run (run (deploy 1) registration_history)
             [mkTx (at_time 1 30) (GrantRole TAX_AUTHORITY_ROLE 4)] in
  let s1 := step s (mkTx (at_time 4 40) (UpdatePropertyValue 1 12000)) in
  let s2 := step s1 (mkTx (at_time 4 50) (UpdatePropertyValue 1 12500)) in
  value (property_at s2 1) = 12500 ∧
  ∃ evs, updatePropertyValue 1 12500 (at_time 4 50) s = Ok (tt, s2, evs).
Proof.
  intros s s1 s2.
  destruct (updatePropertyValue_last_write_wins (at_time 4 40) (at_time 4 50)
              s 1 12000 12500 s1 [PropertyValueUpdated 1 9000 12000 4] s2
              [PropertyValueUpdated 1 12000 12500 4])
    as (_ & Hv & Hsame); [by vm_compute|by vm_compute|].
  split; [exact Hv|exact Hsame].
Defined.

(** * What is left of the uniqueness of locations *)

(** X20.  Once the log holds a registration for a location (and as long
    as the log holds at most 2^256 - 1 registrations), the location is
    indexed, and every [registerProperty] for it that starts from then on
    reverts, whoever calls and whatever recipients do: a location can be
    registered twice only by a call that starts before the first
    registration is finished. *)
Theorem registered_location_is_taken d txs loc :
  Z.of_nat (registrations (log (deploy d) txs)) ≤ MAX_UINT256 →
  registered_at loc (log (deploy d) txs) = true →
  let s := run (deploy d) txs in
  getPropertyIdByLocation s loc ≠ 0 ∧
  ∀ e owner co ar va pt dh uri,
    reverts (registerProperty owner loc co ar va pt dh uri e s).
Proof.
  intros Hb Hreg s.
  destruct (deploy_empty d) as (Hc0 & _).
  destruct (run_counts (deploy d) txs) as (_ & _ & Hz & _);
    [lia|lia|].
  assert (locationToPropertyId s loc ≠ 0) as Hne.
  { intros H0. apply Hz in H0 as [_ H0]. congruence. }
  split; [done|]. intros. by apply registerProperty_duplicate.
Qed.

Lemma registered_location_is_taken_witness :
  let s := run (deploy 1)
             (contract_notary_history ++ [reentrant_registration]) in
  getPropertyIdByLocation s "Lot 8" ≠ 0 ∧
  reverts (registerProperty 12 "Lot 8" "4.1,9.8" 120 500 RESIDENTIAL "QmDeed5"
             "ipfs://QmMeta5" (mkContext 20 80 reregistering) s).
Proof.
  intros s.
  destruct (registered_location_is_taken 1
              (contract_notary_history ++ [reentrant_registration]) "Lot 8")
    as [Hne Hrev]; [by vm_compute|by vm_compute|].
  split; [exact Hne|apply Hrev].
Defined.

(** X21.  Without calls from recipients (and with at most 2^256 - 1
    transactions) two different property ids in use never carry the same
    location string. *)
Theorem one_property_per_location_without_callbacks d txs i j :
  Forall (λ t, calls_back t = false) txs →
  Z.of_nat (length txs) ≤ MAX_UINT256 →
  let s := run (deploy d) txs in
  _exists s i = true → _exists s j = true → i ≠ j →
  location (property_at s i) ≠ location (property_at s j).
Proof.
  intros Hq Hlen s Hi Hj Hne Hloc. apply Hne.
  pose proof (deploy_registry_inv d) as Hinv0.
  destruct (deploy_empty d) as (Hc0 & _).
  destruct (run_registry_inv (deploy d) txs Hq Hinv0) as (Hr & He & Hf & Hb);
    [lia|].
  apply He in Hi, Hj.
  rewrite <- (Hf i Hi), <- (Hf j Hj). fold s. by rewrite Hloc.
Qed.

Lemma one_property_per_location_without_callbacks_witness :
  let s := run (deploy 1)
             (registration_history ++
              [mkTx (at_time 2 60)
                 (RegisterProperty 11 "Lot 8" "4.1,9.8" 120 500 RESIDENTIAL
                    "QmDeed2" "ipfs://QmMeta2")]) in
  location (property_at s 1) ≠ location (property_at s 2).
Proof.
  apply (one_property_per_location_without_callbacks 1
           (registration_history ++
            [mkTx (at_time 2 60)
               (RegisterProperty 11 "Lot 8" "4.1,9.8" 120 500 RESIDENTIAL
                  "QmDeed2" "ipfs://QmMeta2")]) 1 2);
    [repeat (constructor; [reflexivity|]); constructor
    |by vm_compute|by vm_compute|by vm_compute|done].
Defined.

(** * Further properties of the API client *)

Lemma truthy_token (token : string) :
  negb (String.eqb token "") = true ↔ token ≠ "".
Proof.
  rewrite negb_true_iff. destruct (String.eqb_spec token ""); split;
    congruence.
Qed.

(** X15.  The request interceptor adds [Authorization: Bearer <token>] to
    a request exactly when a non-empty ['auth_token'] is stored, and then
    changes no other header and not the URL; with no token, or an empty
    one, the request goes out as it was configured. *)
Theorem request_interceptor_adds_bearer config b :
  (∀ token, getItem "auth_token" b = Some token → token ≠ "" →
     config_headers (request_onFulfilled config b) !! "Authorization"
       = Some (String.append "Bearer " token) ∧
     config_url (request_onFulfilled config b) = config_url config ∧
     ∀ h, h ≠ "Authorization" →
          config_headers (request_onFulfilled config b) !! h
            = config_headers config !! h) ∧
  (getItem "auth_token" b = None ∨ getItem "auth_token" b = Some "" →
   request_onFulfilled config b = config).
Proof.
  unfold request_onFulfilled. split.
  - intros token -> Hne. apply truthy_token in Hne. rewrite Hne. simpl.
    split; [by simplify_map_eq|]. split; [done|].
    intros h Hh. by simplify_map_eq.
  - by intros [-> | ->].
Qed.

(** X16.  The stored token decides what the next request carries:
    after [setAuthToken] with a non-empty token the interceptor sends that
    token, whatever was stored before; after [clearAuthToken], and after a
    response with status 401 went through the response interceptor, it
    adds no header; and [clearAuthToken] undoes [setAuthToken] when no
    token was stored before. *)
Theorem token_lifecycle config b :
  (∀ token, token ≠ "" →
     config_headers (request_onFulfilled config (setAuthToken token b))
       !! "Authorization" = Some (String.append "Bearer " token)) ∧
  request_onFulfilled config (clearAuthToken b) = config ∧
  (∀ response, response_status response = 401 →
     request_onFulfilled config (fst (receive response b)) = config) ∧
  (∀ token, clearAuthToken (setAuthToken token b) = clearAuthToken b) ∧
  (∀ token, getItem "auth_token" b = None →
     clearAuthToken (setAuthToken token b) = b).
Proof.
  split; [|split; [|split; [|split]]].
  - intros token Hne. apply truthy_token in Hne.
    unfold request_onFulfilled, setAuthToken, setItem, getItem. simpl.
    rewrite lookup_insert_eq, Hne. simpl. by simplify_map_eq.
  - unfold request_onFulfilled, clearAuthToken, removeItem, getItem. simpl.
    by rewrite lookup_delete_eq.
  - intros response H. unfold receive, settle. rewrite H. simpl.
    unfold response_onRejected. simpl. rewrite H.
    rewrite bool_decide_eq_true_2 by done. simpl.
    unfold request_onFulfilled, getItem. simpl.
    by rewrite lookup_delete_eq.
  - intros token. unfold clearAuthToken, setAuthToken, removeItem, setItem.
    simpl. by rewrite delete_insert_eq.
  - intros token Hnone.
    unfold clearAuthToken, setAuthToken, removeItem, setItem, getItem in *.
    simpl. rewrite delete_insert_eq, delete_id by done. by destruct b.
Qed.

(** X17.  [handleResponse] returns the body of a resolved response.  For a
    rejected one it throws an error whose message is the body's [detail]
    when that is a non-empty string, what [String] makes of [detail] when
    it is another truthy value (a list of validation errors, say), and
    otherwise the error's own message, or ['Erreur API'] when that is
    empty too. *)
Theorem handleResponse_message detail_of error :
  let detail :=
    match error_response error with
    | Some response => detail_of (response_data response)
    | None => JFalsy
    end in
  (∀ response,
     handleResponse detail_of (Resolved response)
       = Returned (response_data response)) ∧
  (∀ d, detail = JString d → d ≠ "" →
     handleResponse detail_of (Rejected error) = Thrown d) ∧
  (∀ shown, detail = JObject shown →
     handleResponse detail_of (Rejected error) = Thrown shown) ∧
  (truthy detail = false → error_message error ≠ "" →
     handleResponse detail_of (Rejected error)
       = Thrown (error_message error)) ∧
  (truthy detail = false → error_message error = "" →
     handleResponse detail_of (Rejected error) = Thrown "Erreur API") ∧
  (handleResponse detail_of (Rejected error) = Thrown "" →
     detail = JObject "").
Proof.
  intros detail. unfold handleResponse. fold detail.
  split; [done|]. split; [|split; [|split; [|split]]].
  - intros d -> Hd. apply truthy_token in Hd. unfold js_or. simpl.
    by rewrite Hd.
  - by intros shown ->.
  - intros Hf Hm. apply truthy_token in Hm. unfold js_or. rewrite Hf.
    simpl. by rewrite Hm.
  - intros Hf ->. unfold js_or. by rewrite Hf.
  - unfold js_or. destruct detail as [|d|shown]; simpl.
    + destruct (String.eqb_spec (error_message error) ""); simpl;
        [done|congruence].
    + destruct (String.eqb_spec d ""); simpl.
      * destruct (String.eqb_spec (error_message error) ""); simpl;
          [done|congruence].
      * congruence.
    + congruence.
Qed.

Lemma prefix_spec (n h : string) :
  String.prefix n h = true ↔ ∃ b, h = String.append n b.
Proof.
  revert h. induction n as [|c n IH]; intros h; simpl.
  - split; [intros _; by exists h|by destruct h].
  - destruct h as [|c' h]; [split; [done|intros [b ?]; done]|].
    simpl. destruct (Ascii.ascii_dec c c') as [->|Hne].
    + rewrite IH. split; intros [b Hb]; exists b.
      * change (String c' h = String c' (String.append n b)). by f_equal.
      * change (String c' h = String c' (String.append n b)) in Hb.
        congruence.
    + split; [done|]. intros [b Hb].
      change (String c' h = String c (String.append n b)) in Hb. congruence.
Qed.

Lemma includes_spec (n h : string) :
  includes n h = true ↔
  ∃ a b, h = String.append a (String.append n b).
Proof.
  induction h as [|c h IH].
  - change (includes n "") with (String.prefix n "" || false).
    rewrite orb_false_r, prefix_spec. split.
    + intros [b Hb]. by exists "", b.
    + intros (a & b & Hab). destruct a; [by exists b|done].
  - change (includes n (String c h))
      with (String.prefix n (String c h) || includes n h).
    rewrite orb_true_iff, prefix_spec, IH. split.
    + intros [[b Hb] | (a & b & Hab)].
      * by exists "", b.
      * exists (String c a), b.
        change (String c h
                = String c (String.append a (String.append n b))).
        congruence.
    + intros (a & b & Hab). destruct a as [|c' a].
      * left. by exists b.
      * right. exists a, b.
        change (String c h
                = String c' (String.append a (String.append n b))) in Hab.
        congruence.
Qed.

(** X18.  [getUserByWallet] answers [null] exactly when the message
    [handleResponse] throws contains ['404'] somewhere, and never for a
    resolved response.  So the status itself is not what decides: a
    response without [detail] rejected by axios with status 404 gives
    [null], a 404 whose body carries a non-empty string [detail] without
    ['404'] in it is thrown on, and any failure whose surfaced message
    contains ['404'] gives [null]. *)
Theorem getUserByWallet_null_on_404_text detail_of :
  (∀ response,
     getUserByWallet detail_of (Resolved response)
       = Returned (Some (response_data response))) ∧
  (∀ error,
     getUserByWallet detail_of (Rejected error) = Returned None ↔
     ∃ m a b, handleResponse detail_of (Rejected error) = Thrown m ∧
              m = String.append a (String.append "404" b)) ∧
  (∀ response,
     truthy (detail_of (response_data response)) = false →
     getUserByWallet detail_of
       (Rejected (mkAxiosError (status_message "404") (Some response)))
     = Returned None) ∧
  (∀ response message d,
     detail_of (response_data response) = JString d → d ≠ "" →
     includes "404" d = false →
     getUserByWallet detail_of
       (Rejected (mkAxiosError message (Some response))) = Thrown d) ∧
  (∀ response message d,
     detail_of (response_data response) = JString d →
     includes "404" d = true →
     getUserByWallet detail_of
       (Rejected (mkAxiosError message (Some response))) = Returned None).
Proof.
  split; [done|]. split; [|split; [|split]].
  - intros error. unfold getUserByWallet.
    destruct (handleResponse detail_of (Rejected error)) as [u|m] eqn:E;
      [done|].
    destruct (includes "404" m) eqn:Hi.
    + split; [|done]. intros _. apply includes_spec in Hi as (a & b & ->).
      exists (String.append a (String.append "404" b)), a, b.
      split; reflexivity.
    + split; [done|]. intros (m' & a & b & [= <-] & ->).
      assert (includes "404" (String.append a (String.append "404" b))
              = true) as Ht by (apply includes_spec; eauto).
      congruence.
  - intros response Hf. unfold getUserByWallet, handleResponse, js_or.
    simpl. by rewrite Hf.
  - intros response message d Hd Hne Hi.
    unfold getUserByWallet, handleResponse, js_or. simpl. rewrite Hd. simpl.
    apply truthy_token in Hne. rewrite Hne. simpl. by rewrite Hi.
  - intros response message d Hd Hi.
    assert (d ≠ "") as Hne by (intros ->; done).
    unfold getUserByWallet, handleResponse, js_or. simpl. rewrite Hd. simpl.
    apply truthy_token in Hne. rewrite Hne. simpl. by rewrite Hi.
Qed.

Lemma filter_params_app e1 e2 :
  filter_params (e1 ++ e2) = filter_params e1 ++ filter_params e2.
Proof.
  induction e1 as [|[k v] e1 IH]; [done|].
  destruct v; simpl; by rewrite ?IH.
Qed.

(** X19.  The query of [getProperties] and [getPropertiesByOwner] holds
    one parameter for every filter whose value is not [undefined], in the
    order of the filters, with the value's [toString]; a filter left
    [undefined] is skipped, while [false] and the empty string are
    sent; and the parameters of two groups of filters are those of the
    first followed by those of the second. *)
Theorem filter_params_skips_undefined_only entries :
  filter_params entries
    = map (λ kv, (kv.1, filter_toString kv.2))
        (filter (λ kv, is_defined kv.2 = true) entries) ∧
  (∀ k s, (k, s) ∈ filter_params entries ↔
          ∃ v, (k, v) ∈ entries ∧ is_defined v = true ∧
               s = filter_toString v) ∧
  (length (filter_params entries) ≤ length entries)%nat ∧
  (∀ k, filter_params [(k, FBoolean false)] = [(k, "false")]) ∧
  (∀ k, filter_params [(k, FString "")] = [(k, "")]) ∧
  (∀ k, filter_params [(k, FUndefined)] = []) ∧
  (∀ more, filter_params (entries ++ more)
           = filter_params entries ++ filter_params more).
Proof.
  assert (filter_params entries
          = map (λ kv, (kv.1, filter_toString kv.2))
              (filter (λ kv, is_defined kv.2 = true) entries)) as Heq.
  { induction entries as [|[k v] entries IH]; [done|].
    destruct v; simpl; rewrite ?filter_cons; simpl;
      repeat case_decide; try done; simpl; by rewrite IH. }
  split; [done|]. split; [|split; [|split; [|split; [|split]]]]; try done.
  - intros k s. rewrite Heq, list_elem_of_fmap. split.
    + intros ([k' v] & [= -> ->] & Hin). apply list_elem_of_filter in Hin.
      exists v. simpl in *. tauto.
    + intros (v & Hin & Hd & ->). exists (k, v). split; [done|].
      apply list_elem_of_filter. done.
  - rewrite Heq, length_map. apply length_filter.
  - intros more. apply filter_params_app.
Qed.

(** * The sample histories, evaluated *)

Example register_by_stranger_reverts :
  exec (RegisterProperty 10 "Lot 8" "4.1,9.8" 120 500 RESIDENTIAL "Qm" "u")
    (at_time 7 60) (run (deploy 1) registration_history)
  = Revert
      (String.append
         "AccessControl: account 0x0000000000000000000000000000000000000007"
         (String.append " is missing role "
            "0x014df5ee2861d7f34562399ffa112fc59b51f810d2b875c3609ba0c31ac873d0")).
Proof. by vm_compute. Qed.

Example register_while_paused_reverts :
  exec (RegisterProperty 10 "Lot 8" "4.1,9.8" 120 500 RESIDENTIAL "Qm" "u")
    (at_time 2 60) (run (deploy 1) paused_history)
  = Revert "Pausable: paused".
Proof. by vm_compute. Qed.

Example register_after_unpause_succeeds :
  is_ok (exec (RegisterProperty 10 "Lot 8" "4.1,9.8" 120 500 RESIDENTIAL
                 "Qm" "u")
           (at_time 2 60)
           (run (deploy 1) (paused_history ++ [mkTx (at_time 1 50) Unpause])))
  = true.
Proof. by vm_compute. Qed.

Example refused_mint_leaves_counter :
  let s := run (deploy 1) registration_history in
  let t := mkTx (mkContext 2 60 (Behaviour [] (Returns false)))
             (RegisterProperty 10 "Lot 8" "4.1,9.8" 120 500 RESIDENTIAL
                "Qm" "u") in
  exec (tx_call t) (tx_env t) s
    = Revert "ERC721: transfer to non ERC721Receiver implementer" ∧
  getTotalProperties (step s t) = 1.
Proof. by vm_compute. Qed.

Example transfer_to_owner_reverts :
  exec (TransferProperty 1 10 9500) (at_time 2 60)
    (run (deploy 1) registration_history)
  = Revert "Cannot transfer to same owner".
Proof. by vm_compute. Qed.

Example unauthorized_response_logs_out :
  let b := fst (receive (mkAxiosResponse 401 "Unauthorized") logged_in) in
  localStorage b !! "auth_token" = None ∧
  localStorage b !! "lang" = Some "fr" ∧
  window_location_href b = "/".
Proof. by vm_compute. Qed.

Example forbidden_response_keeps_token :
  fst (receive (mkAxiosResponse 403 "Forbidden") logged_in) = logged_in.
Proof. by vm_compute. Qed.

(** A recipient that reverts with a reason of its own: the reason is
    passed on, and the call it made before is undone with the rest. *)
Example recipient_revert_is_passed_on :
  let s := run (deploy 1) contract_notary_history in
  let t := mkTx (mkContext 2 60
                   (Behaviour
                      [Callback 20
                         (RegisterProperty 21 "Lot 8" "4.2,9.9" 80 700
                            RESIDENTIAL "QmDeed3" "ipfs://QmMeta3")
                         account]
                      (Reverts "Receiver: not today")))
             (RegisterProperty 20 "Lot 8" "4.1,9.8" 120 500 RESIDENTIAL
                "QmDeed2" "ipfs://QmMeta2") in
  exec (tx_call t) (tx_env t) s = Revert "Receiver: not today" ∧
  step s t = s ∧ events_of s t = [].
Proof. split_and!; by vm_compute. Qed.

(** A call of the recipient that reverts is caught: the registration
    goes through as if the call had not been made. *)
Example failed_callback_leaves_no_trace :
  let s := run (deploy 1) registration_history in
  let t := mkTx (mkContext 2 60
                   (Behaviour [Callback 20 (VerifyProperty 1 true) account]
                      (Returns true)))
             (RegisterProperty 20 "Lot 8" "4.1,9.8" 120 500 RESIDENTIAL
                "QmDeed2" "ipfs://QmMeta2") in
  step s t
    = step s (mkTx (at_time 2 60)
                (RegisterProperty 20 "Lot 8" "4.1,9.8" 120 500 RESIDENTIAL
                   "QmDeed2" "ipfs://QmMeta2")) ∧
  verified (property_at (step s t) 1) = false.
Proof. split_and!; by vm_compute. Qed.

(** A plain 404 of the backend, as axios rejects it. *)
Example not_found_message :
  settle (mkAxiosResponse 404 "{}")
  = Rejected
      (mkAxiosError "Request failed with status code 404"
         (Some (mkAxiosResponse 404 "{}"))).
Proof. by vm_compute. Qed.
